(** * Nachos file system: file headers and directories

    A shallow embedding of [code/filesys/filehdr.cc] and
    [code/filesys/directory.cc].  C++ [int] values are integers in [Z];
    the arithmetic is that of the integers, which is the arithmetic of the
    code as long as no result leaves the range of a 32-bit [int], and
    [ByteToSector_int] writes out the wrap-around of [ByteToSector], whose
    operands come from a header read from disk.  Arrays are lists read
    and written by index, and an access outside the list stops the
    computation ([OutOfBounds]), where the C++ code would run on with
    whatever lies beyond the array; the methods of [FileHeader] are
    computations over the kernel state they can reach (the header object,
    the free map passed in, the synchronous disk); the methods of
    [Directory] are functions on the directory table. *)

From Stdlib Require Import Ascii String.
From stdpp Require Import numbers list.

Local Open Scope Z_scope.

(** ** Arrays indexed by a C [int] *)

(** [a[i]] for an [int] index; [None] outside the array. *)
Definition zlookup {A} (l : list A) (i : Z) : option A :=
  if decide (0 ≤ i) then l !! Z.to_nat i else None.

(** [a[i] = x] for an index inside the array. *)
Definition zinsert {A} (i : Z) (x : A) (l : list A) : list A :=
  <[Z.to_nat i := x]> l.

Definition in_bounds {A} (l : list A) (i : Z) : bool :=
  bool_decide (0 ≤ i < Z.of_nat (length l)).

(** ** utility.h *)

(** Modelled from the spec: utility.h is not among the sources; the spec
    gives [numSectors = ceil(numBytes / SectorSize)].  [divRoundUp] is
    that ceiling, written with C's truncating division and remainder. *)
Definition divRoundUp (n s : Z) : Z :=
  Z.quot n s + (if 0 <? Z.rem n s then 1 else 0).

(** ** The free-sector bitmap *)

(** Modelled from the spec: bitmap.cc and pbitmap.cc are not among the
    sources.  One bit per disk sector, [true] = allocated.  [FindAndSet]
    allocates one clear sector (the lowest one) or returns -1, [Clear]
    frees a sector, [Test] reads a bit ([false] outside the map) and
    [NumClear] counts the clear bits. *)
Module Bitmap.

Fixpoint first_clear (bm : list bool) : option nat :=
  match bm with
  | [] => None
  | b :: rest => if b then S <$> first_clear rest else Some O
  end.

Definition Mark (bm : list bool) (which : Z) : list bool :=
  if decide (0 ≤ which) then <[Z.to_nat which := true]> bm else bm.

Definition Clear (bm : list bool) (which : Z) : list bool :=
  if decide (0 ≤ which) then <[Z.to_nat which := false]> bm else bm.

Definition Test (bm : list bool) (which : Z) : bool :=
  default false (zlookup bm which).

Definition FindAndSet (bm : list bool) : Z * list bool :=
  match first_clear bm with
  | Some i => (Z.of_nat i, Mark bm (Z.of_nat i))
  | None => (-1, bm)
  end.

Fixpoint count_clear (bm : list bool) : nat :=
  match bm with
  | [] => O
  | b :: rest => if b then count_clear rest else S (count_clear rest)
  end.

Definition NumClear (bm : list bool) : Z := Z.of_nat (count_clear bm).

End Bitmap.

(** ** The file header record (filehdr.h) *)

Record FileHeader := mkFileHeader {
  numBytes : Z;
  numSectors : Z;
  numDirectSectors : Z;
  numIndirectSectors : Z;
  DirectSectors : list Z;
  IndirectSectors : list Z
}.

(** ** Kernel state reachable from a [FileHeader] method

    [hdr] is the object the method is called on, [freeMap] the bitmap
    passed to it, [disk] the contents of [kernel->synchDisk], one list of
    32-bit words per sector.  [clearLog] records the arguments of the
    calls of [Bitmap::Clear], oldest first. *)
Record World := mkWorld {
  hdr : FileHeader;
  freeMap : list bool;
  disk : Z → list Z;
  clearLog : list Z
}.

(** Why a computation stopped: a failed [ASSERT] (which aborts Nachos),
    an array access outside its bounds, or an exhausted loop budget. *)
Inductive Reason := AssertFailed | OutOfBounds | OutOfFuel.

Inductive Result (A : Type) :=
| Ok (a : A) (w : World)
| Stop (r : Reason) (w : World).
Arguments Ok {A} a w.
Arguments Stop {A} r w.

Definition M (A : Type) := World → Result A.

Definition ret {A} (a : A) : M A := λ w, Ok a w.

Definition bind {A B} (m : M A) (k : A → M B) : M B :=
  λ w, match m w with
       | Ok a w' => k a w'
       | Stop r w' => Stop r w'
       end.

Notation "x ←' m ; k" := (bind m (λ x, k))
  (at level 100, m at next level, k at level 200, right associativity).
Notation "m ;;' k" := (bind m (λ _, k))
  (at level 100, k at level 200, right associativity).

Definition stop {A} (r : Reason) : M A := λ w, Stop r w.

Definition ASSERT (b : bool) : M unit :=
  if b then ret tt else stop AssertFailed.

Definition get_hdr : M FileHeader := λ w, Ok (hdr w) w.

Definition put_hdr (h : FileHeader) : M unit :=
  λ w, Ok tt (mkWorld h (freeMap w) (disk w) (clearLog w)).

Definition set_numBytes (v : Z) : M unit :=
  h ←' get_hdr;
  put_hdr (mkFileHeader v (numSectors h) (numDirectSectors h)
             (numIndirectSectors h) (DirectSectors h) (IndirectSectors h)).

Definition set_numSectors (v : Z) : M unit :=
  h ←' get_hdr;
  put_hdr (mkFileHeader (numBytes h) v (numDirectSectors h)
             (numIndirectSectors h) (DirectSectors h) (IndirectSectors h)).

Definition set_numDirectSectors (v : Z) : M unit :=
  h ←' get_hdr;
  put_hdr (mkFileHeader (numBytes h) (numSectors h) v
             (numIndirectSectors h) (DirectSectors h) (IndirectSectors h)).

Definition set_numIndirectSectors (v : Z) : M unit :=
  h ←' get_hdr;
  put_hdr (mkFileHeader (numBytes h) (numSectors h) (numDirectSectors h)
             v (DirectSectors h) (IndirectSectors h)).

(** [DirectSectors[i] = v] *)
Definition set_DirectSectors (i v : Z) : M unit :=
  h ←' get_hdr;
  if in_bounds (DirectSectors h) i then
    put_hdr (mkFileHeader (numBytes h) (numSectors h) (numDirectSectors h)
               (numIndirectSectors h) (zinsert i v (DirectSectors h))
               (IndirectSectors h))
  else stop OutOfBounds.

(** [IndirectSectors[i] = v].  The code does not compare [i] with the size
    of the array; the model follows it for the indices inside the array
    only, that is, for files whose indirect entries fit the header. *)
Definition set_IndirectSectors (i v : Z) : M unit :=
  h ←' get_hdr;
  if in_bounds (IndirectSectors h) i then
    put_hdr (mkFileHeader (numBytes h) (numSectors h) (numDirectSectors h)
               (numIndirectSectors h) (DirectSectors h)
               (zinsert i v (IndirectSectors h)))
  else stop OutOfBounds.

(** Reading [a[i]]. *)
Definition read_at (l : list Z) (i : Z) : M Z :=
  match zlookup l i with
  | Some v => ret v
  | None => stop OutOfBounds
  end.

Definition get_DirectSectors (i : Z) : M Z :=
  h ←' get_hdr; read_at (DirectSectors h) i.

Definition get_IndirectSectors (i : Z) : M Z :=
  h ←' get_hdr; read_at (IndirectSectors h) i.

(** The bitmap's methods, on the [freeMap] of the state. *)
Definition NumClear : M Z := λ w, Ok (Bitmap.NumClear (freeMap w)) w.

Definition FindAndSet : M Z :=
  λ w, let '(s, bm) := Bitmap.FindAndSet (freeMap w) in
       Ok s (mkWorld (hdr w) bm (disk w) (clearLog w)).

Definition Test (which : Z) : M bool :=
  λ w, Ok (Bitmap.Test (freeMap w) which) w.

Definition Clear (which : Z) : M unit :=
  λ w, Ok tt (mkWorld (hdr w) (Bitmap.Clear (freeMap w) which) (disk w)
                (clearLog w ++ [which])).

(** Modelled from the spec: synchdisk.cc is not among the sources.
    [ReadSector] and [WriteSector] transfer one whole sector. *)
Definition ReadSector (sectorNumber : Z) : M (list Z) :=
  λ w, Ok (disk w sectorNumber) w.

Definition WriteSector (sectorNumber : Z) (data : list Z) : M unit :=
  λ w, Ok tt (mkWorld (hdr w) (freeMap w)
                (λ s, if decide (s = sectorNumber) then data else disk w s)
                (clearLog w)).

(** [for (int i = from; i < from + count; i++) body(i)], for a bound the
    body does not change. *)
Fixpoint for_from (from : Z) (count : nat) (body : Z → M unit) : M unit :=
  match count with
  | O => ret tt
  | S c => body from ;;' for_from (from + 1) c body
  end.

Definition for_lt (n : Z) (body : Z → M unit) : M unit :=
  for_from 0 (Z.to_nat n) body.

(** ** filehdr.cc *)

Section Nachos.

(** Constants of disk.h and filehdr.h. *)
Variables SectorSize NumDirect NumIndirect NumSectorForBlock : Z.

(** [FileHeader::FileHeader] *)
Definition FileHeader_new : FileHeader :=
  mkFileHeader (-1) (-1) (-1) (-1)
    (replicate (Z.to_nat NumDirect) (-1))
    (replicate (Z.to_nat NumIndirect) (-1)).

(** The inner loop of [Allocate]: fills the local array
    [SectorForIndirect], entry after entry. *)
Fixpoint Allocate_block (count : nat) : M (list Z) :=
  match count with
  | O => ret []
  | S c =>
      s ←' FindAndSet;
      ASSERT (0 <=? s) ;;'
      rest ←' Allocate_block c;
      ret (s :: rest)
  end.

Definition Allocate_direct (i : Z) : M unit :=
  s ←' FindAndSet;
  set_DirectSectors i s ;;'
  d ←' get_DirectSectors i;
  ASSERT (0 <=? d).

Definition Allocate_indirect (i : Z) : M unit :=
  s ←' FindAndSet;
  set_IndirectSectors i s ;;'
  d ←' get_IndirectSectors i;
  ASSERT (0 <=? d) ;;'
  SectorForIndirect ←' Allocate_block (Z.to_nat NumSectorForBlock);
  d ←' get_IndirectSectors i;
  WriteSector d SectorForIndirect.

(** [FileHeader::Allocate] *)
Definition Allocate (fileSize : Z) : M bool :=
  set_numBytes fileSize ;;'
  set_numSectors (divRoundUp fileSize SectorSize) ;;'
  free ←' NumClear;
  h ←' get_hdr;
  if free <? numSectors h then ret false
  else
    (if NumDirect <? numSectors h then
       set_numDirectSectors NumDirect ;;'
       h ←' get_hdr;
       set_numIndirectSectors
         (divRoundUp (numSectors h - numDirectSectors h) NumSectorForBlock)
     else
       set_numDirectSectors (numSectors h) ;;'
       set_numIndirectSectors 0) ;;'
    h ←' get_hdr;
    for_lt (numDirectSectors h) Allocate_direct ;;'
    h ←' get_hdr;
    for_lt (numIndirectSectors h) Allocate_indirect ;;'
    ret true.

(** The inner loop of [Deallocate], over the entries of the block read
    from the disk. *)
Definition Deallocate_entry (SectorForIndirect : list Z) (j : Z) : M unit :=
  e ←' read_at SectorForIndirect j;
  b ←' Test e;
  ASSERT b ;;'
  Clear e.

Definition Deallocate_direct (i : Z) : M unit :=
  d ←' get_DirectSectors i;
  b ←' Test d;
  ASSERT b ;;'
  Clear d.

Definition Deallocate_indirect (i : Z) : M unit :=
  d ←' get_IndirectSectors i;
  b ←' Test d;
  ASSERT b ;;'
  data ←' ReadSector d;
  for_lt NumSectorForBlock
    (Deallocate_entry (take (Z.to_nat NumSectorForBlock) data)) ;;'
  Clear d.

(** [FileHeader::Deallocate] *)
Definition Deallocate : M unit :=
  h ←' get_hdr;
  for_lt (numDirectSectors h) Deallocate_direct ;;'
  h ←' get_hdr;
  for_lt (numIndirectSectors h) Deallocate_indirect.

(** The header as the words of its record, in declaration order. *)
Definition header_image (h : FileHeader) : list Z :=
  [numBytes h; numSectors h; numDirectSectors h; numIndirectSectors h]
    ++ DirectSectors h ++ IndirectSectors h.

(** A record of [4 + nd + ...] words read back as a header whose
    [DirectSectors] array has [nd] entries. *)
Definition header_of_image (nd : nat) (img : list Z) : FileHeader :=
  mkFileHeader (nth 0 img 0) (nth 1 img 0) (nth 2 img 0) (nth 3 img 0)
    (take nd (drop 4 img)) (drop (4 + nd) img).

(** Copying the words [ws] of a sector over an object whose words are
    [img]: the object keeps its size, and keeps the words the sector
    does not reach. *)
Definition overlay (ws img : list Z) : list Z :=
  take (length img) ws ++ drop (length ws) img.

(** The scan of [FetchFrom]; the loop variable is the field
    [numIndirectSectors] itself. *)
Fixpoint FetchFrom_scan (fuel : nat) : M unit :=
  match fuel with
  | O => stop OutOfFuel
  | S f =>
      h ←' get_hdr;
      if numIndirectSectors h <? NumIndirect then
        e ←' get_IndirectSectors (numIndirectSectors h);
        if e =? -1 then ret tt
        else
          set_numIndirectSectors (numIndirectSectors h + 1) ;;'
          FetchFrom_scan f
      else ret tt
  end.

(** [FileHeader::FetchFrom] *)
Definition FetchFrom (sector : Z) : M unit :=
  data ←' ReadSector sector;
  h ←' get_hdr;
  put_hdr (header_of_image (length (DirectSectors h))
             (overlay data (header_image h))) ;;'
  set_numIndirectSectors 0 ;;'
  FetchFrom_scan (S (Z.to_nat NumIndirect)) ;;'
  h ←' get_hdr;
  set_numDirectSectors
    (if negb (numIndirectSectors h =? 0) then NumDirect else numSectors h).

(** [FileHeader::WriteBack] *)
Definition WriteBack (sector : Z) : M unit :=
  h ←' get_hdr;
  WriteSector sector (header_image h).

(** [FileHeader::ByteToSector], with the arithmetic of the integers *)
Definition ByteToSector (offset : Z) : M Z :=
  h ←' get_hdr;
  if offset <? SectorSize * numDirectSectors h then
    get_DirectSectors (Z.quot offset SectorSize)
  else
    let IndirectSector :=
      Z.quot (offset - SectorSize * numDirectSectors h)
             (SectorSize * NumSectorForBlock) in
    d ←' get_IndirectSectors IndirectSector;
    data ←' ReadSector d;
    read_at (take (Z.to_nat NumSectorForBlock) data)
      (Z.rem (Z.quot (offset - SectorSize * numDirectSectors h) SectorSize)
             NumSectorForBlock).




(** [FileHeader::FileLength] *)
Definition FileLength : M Z :=
  h ←' get_hdr; ret (numBytes h).


(** ** C strings (string.h) *)

(** The character at the head of a C string; past the end of the list
    stands its terminator. *)
Definition head_char (s : list ascii) : ascii := hd zero s.

Definition code (c : ascii) : Z := Z.of_nat (nat_of_ascii c).

(** [strncmp(a, b, n)] *)
Fixpoint strncmp (a b : list ascii) (n : nat) : Z :=
  match n with
  | O => 0
  | S n' =>
      let ca := head_char a in
      let cb := head_char b in
      if negb (code ca =? code cb) then code ca - code cb
      else if code ca =? 0 then 0
      else strncmp (tl a) (tl b) n'
  end.

(** [strncpy(dst, src, n)]: [n] characters are written, those of [src]
    up to its terminator and then ['\0']; the rest of [dst] is kept.  The
    buffer is taken to hold [n] characters at least, as C requires. *)
Fixpoint strncpy (dst src : list ascii) (n : nat) : list ascii :=
  match n with
  | O => dst
  | S n' =>
      let c := head_char src in
      c :: strncpy (tl dst) (if code c =? 0 then [] else tl src) n'
  end.

(** [memset(buf, '\0', sizeof(buf))] *)
Definition memset_zero (buf : list ascii) : list ascii :=
  replicate (length buf) zero.

(** ** directory.cc *)

Record DirectoryEntry := mkDirectoryEntry {
  inUse : bool;
  isDirectory : bool;
  sector : Z;
  name : list ascii
}.

(** A directory is its [table]; [tableSize] is the length of the table. *)
Record Directory := mkDirectory { table : list DirectoryEntry }.

Definition tableSize (d : Directory) : Z := Z.of_nat (length (table d)).

(** [FileNameMaxLen] of directory.h, and the size in bytes of the
    [name] array of an entry. *)
Variable FileNameMaxLen : Z.
Variable NameSize : nat.

(** [DirectoryEntry::DirectoryEntry] *)
Definition DirectoryEntry_new : DirectoryEntry :=
  mkDirectoryEntry false false (-1) (replicate NameSize zero).

(** [Directory::Directory], for a size that is not negative (for a
    negative one [new DirectoryEntry[tableSize]] throws and there is no
    directory; the model has the empty table then). *)
Definition Directory_new (size : Z) : Directory :=
  mkDirectory (replicate (Z.to_nat size) DirectoryEntry_new).

Definition name_matches (e : DirectoryEntry) (nm : string) : bool :=
  inUse e
  && (strncmp (name e) (list_ascii_of_string nm) (Z.to_nat FileNameMaxLen)
      =? 0).

(** The loop of [FindIndex], from slot [i] on. *)
Fixpoint FindIndex_from (i : Z) (t : list DirectoryEntry) (nm : string) : Z :=
  match t with
  | [] => -1
  | e :: rest =>
      if name_matches e nm then i else FindIndex_from (i + 1) rest nm
  end.

(** [Directory::FindIndex] *)
Definition FindIndex (d : Directory) (nm : string) : Z :=
  FindIndex_from 0 (table d) nm.

(** [Directory::Find] *)
Definition Find (d : Directory) (nm : string) : Z :=
  let i := FindIndex d nm in
  if negb (i =? -1) then
    match zlookup (table d) i with
    | Some e => sector e
    | None => -1
    end
  else -1.

(** The four assignments of [Add] to the slot it takes. *)
Definition claim_slot (e : DirectoryEntry) (nm : string) (newSector : Z)
    (isDir : bool) : DirectoryEntry :=
  mkDirectoryEntry true isDir newSector
    (strncpy (name e) (list_ascii_of_string nm) (Z.to_nat FileNameMaxLen)).

(** The two assignments of [Remove] to the slot it frees. *)
Definition release_slot (e : DirectoryEntry) : DirectoryEntry :=
  mkDirectoryEntry false (isDirectory e) (sector e) (memset_zero (name e)).

(** The loop of [Add]: the first slot not in use is filled. *)
Fixpoint Add_scan (t : list DirectoryEntry) (nm : string) (newSector : Z)
    (isDir : bool) : option (list DirectoryEntry) :=
  match t with
  | [] => None
  | e :: rest =>
      if negb (inUse e) then Some (claim_slot e nm newSector isDir :: rest)
      else (λ r, e :: r) <$> Add_scan rest nm newSector isDir
  end.

(** [Directory::Add] *)
Definition Add (d : Directory) (nm : string) (newSector : Z) (isDir : bool)
    : bool * Directory :=
  if negb (FindIndex d nm =? -1) then (false, d)
  else
    match Add_scan (table d) nm newSector isDir with
    | Some t => (true, mkDirectory t)
    | None => (false, d)
    end.

(** [Directory::Remove] *)
Definition Remove (d : Directory) (nm : string) : bool * Directory :=
  let i := FindIndex d nm in
  if i =? -1 then (false, d)
  else
    (true, mkDirectory (alter release_slot (Z.to_nat i) (table d))).

(** Calls of [Add] and [Remove], and a run of them. *)
Inductive Call :=
| CallAdd (nm : string) (newSector : Z) (isDir : bool)
| CallRemove (nm : string).

Definition call (d : Directory) (c : Call) : bool * Directory :=
  match c with
  | CallAdd nm s b => Add d nm s b
  | CallRemove nm => Remove d nm
  end.

Definition run (d : Directory) (cs : list Call) : Directory :=
  foldl (λ d c, snd (call d c)) d cs.

(** A run of insertions that all succeed. *)
Fixpoint AddAll (d : Directory) (adds : list (string * Z * bool))
    : option Directory :=
  match adds with
  | [] => Some d
  | (nm, s, b) :: rest =>
      match Add d nm s b with
      | (true, d') => AddAll d' rest
      | (false, _) => None
      end
  end.

(** The sector and directory flag slot [i] held when it was last in use
    during the run of [cs] from [d]; [last] before any use. *)
Fixpoint last_held (i : nat) (d : Directory) (cs : list Call)
    (last : Z * bool) : Z * bool :=
  let last' :=
    match table d !! i with
    | Some e => if inUse e then (sector e, isDirectory e) else last
    | None => last
    end in
  match cs with
  | [] => last'
  | c :: rest => last_held i (snd (call d c)) rest last'
  end.

(** [Directory::Remove] as a step of the kernel state: it has the
    directory object only, and neither the bitmap nor the disk. *)
Definition Remove_in (nm : string) (k : Directory * World)
    : bool * (Directory * World) :=
  let '(b, d) := Remove (fst k) nm in (b, (d, snd k)).

(** ** Notions used to state the properties *)

(** The state a result ends in. *)
Definition world_of {A} (r : Result A) : World :=
  match r with
  | Ok _ w => w
  | Stop _ w => w
  end.

Definition is_clear (bm : list bool) (s : Z) : Prop :=
  zlookup bm s = Some false.

Definition is_marked (bm : list bool) (s : Z) : Prop :=
  zlookup bm s = Some true.

(** [fresh_run bm ss bm']: the sectors [ss], each clear when its turn
    comes, are marked one after the other, which turns [bm] into [bm']. *)
Fixpoint fresh_run (bm : list bool) (ss : list Z) (bm' : list bool) : Prop :=
  match ss with
  | [] => bm' = bm
  | s :: rest => is_clear bm s ∧ fresh_run (Bitmap.Mark bm s) rest bm'
  end.

Definition clear_all (bm : list bool) (cs : list Z) : list bool :=
  foldl Bitmap.Clear bm cs.

(** The sectors of a list of indirection blocks (block sector, entries),
    in the order [Allocate] takes them and in the order [Deallocate]
    clears them. *)
Definition taken_order (bl : list (Z * list Z)) : list Z :=
  concat (map (λ sb, fst sb :: snd sb) bl).

Definition cleared_order (bl : list (Z * list Z)) : list Z :=
  concat (map (λ sb, snd sb ++ [fst sb]) bl).

Definition with_DirectSectors (h : FileHeader) (ds : list Z) : FileHeader :=
  mkFileHeader (numBytes h) (numSectors h) (numDirectSectors h)
    (numIndirectSectors h) ds (IndirectSectors h).

Definition with_IndirectSectors (h : FileHeader) (l : list Z) : FileHeader :=
  mkFileHeader (numBytes h) (numSectors h) (numDirectSectors h)
    (numIndirectSectors h) (DirectSectors h) l.

(** The header fields [Allocate] computes before it takes sectors. *)
Definition sized (h : FileHeader) (fileSize : Z) : FileHeader :=
  let ns := divRoundUp fileSize SectorSize in
  mkFileHeader fileSize ns
    (if NumDirect <? ns then NumDirect else ns)
    (if NumDirect <? ns then divRoundUp (ns - NumDirect) NumSectorForBlock
     else 0)
    (DirectSectors h) (IndirectSectors h).

(** What a successful [Allocate fileSize] has done between the states
    [w] and [w']: [ss] are the direct sectors and [bl] the indirection
    blocks it took, each block with its entries. *)
Record allocated (w : World) (fileSize : Z) (w' : World)
    (ss : list Z) (bl : list (Z * list Z)) : Prop := mkAllocated {
  al_enough : numSectors (sized (hdr w) fileSize)
              ≤ Bitmap.NumClear (freeMap w);
  al_direct : length ss
              = Z.to_nat (numDirectSectors (sized (hdr w) fileSize));
  al_indirect : length bl
                = Z.to_nat (numIndirectSectors (sized (hdr w) fileSize));
  al_direct_fit : (length ss ≤ length (DirectSectors (hdr w)))%nat;
  al_indirect_fit : (length bl ≤ length (IndirectSectors (hdr w)))%nat;
  al_hdr : hdr w'
           = with_IndirectSectors
               (with_DirectSectors (sized (hdr w) fileSize)
                  (ss ++ drop (length ss) (DirectSectors (hdr w))))
               (map fst bl ++ drop (length bl) (IndirectSectors (hdr w)));
  al_fresh : fresh_run (freeMap w) (ss ++ taken_order bl) (freeMap w');
  al_block_size : Forall (λ sb, length (snd sb)
                                = Z.to_nat NumSectorForBlock) bl;
  al_blocks : ∀ sb, sb ∈ bl → disk w' (fst sb) = snd sb;
  al_disk : ∀ x, x ∉ map fst bl → disk w' x = disk w x;
  al_log : clearLog w' = clearLog w
}.

(** The number of entries of [l] before the first -1. *)
Fixpoint before_sentinel (l : list Z) : Z :=
  match l with
  | [] => 0
  | v :: rest => if v =? -1 then 0 else 1 + before_sentinel rest
  end.

Fixpoint in_use_count (t : list DirectoryEntry) : nat :=
  match t with
  | [] => O
  | e :: rest => ((if inUse e then 1 else 0) + in_use_count rest)%nat
  end.

Definition all_zero (buf : list ascii) : Prop := Forall (λ c, c = zero) buf.


(** The header [FetchFrom] leaves when the record it has read is [raw]:
    the two counts are computed anew. *)
Definition decode (raw : FileHeader) : FileHeader :=
  mkFileHeader (numBytes raw) (numSectors raw)
    (if before_sentinel (IndirectSectors raw) =? 0 then numSectors raw
     else NumDirect)
    (before_sentinel (IndirectSectors raw))
    (DirectSectors raw) (IndirectSectors raw).

(** A header whose two counts are those [FetchFrom] computes. *)
Definition canonical (h : FileHeader) : Prop :=
  numIndirectSectors h = before_sentinel (IndirectSectors h)
  ∧ numDirectSectors h
    = (if numIndirectSectors h =? 0 then numSectors h else NumDirect).

(** The data sectors of a file, in the order of its bytes: the direct
    sectors, then the entries of each indirection block. *)
Definition file_sectors (ss : list Z) (bl : list (Z * list Z)) : list Z :=
  ss ++ concat (map snd bl).

(** The first [n] characters of the C string at [s], up to its terminator
    at most: what [strncmp] with bound [n] looks at. *)
Fixpoint cprefix (s : list ascii) (n : nat) : list ascii :=
  match n with
  | O => []
  | S n' =>
      let c := head_char s in
      if code c =? 0 then [] else c :: cprefix (tl s) n'
  end.

(** The part of a name, and of the name buffer of a slot, that
    [FindIndex] compares. *)
Definition key (nm : string) : list ascii :=
  cprefix (list_ascii_of_string nm) (Z.to_nat FileNameMaxLen).

Definition slot_key (e : DirectoryEntry) : list ascii :=
  cprefix (name e) (Z.to_nat FileNameMaxLen).

(** No two slots in use hold the same key. *)
Definition unique_keys (d : Directory) : Prop :=
  ∀ i j e e',
    table d !! i = Some e → table d !! j = Some e' →
    inUse e = true → inUse e' = true →
    slot_key e = slot_key e' → i = j.

(** ** A small disk for the examples

    A header as its constructor leaves it, for 10 direct and 18 indirect
    entries; a bitmap whose first two sectors are taken and whose next
    [free] sectors are free; a disk of empty sectors. *)
Definition example_hdr : FileHeader :=
  mkFileHeader (-1) (-1) (-1) (-1) (replicate 10 (-1)) (replicate 18 (-1)).

Definition example_world (free : nat) : World :=
  mkWorld example_hdr ([true; true] ++ replicate free false) (λ _, []) [].



(** ** Index lemmas *)

Lemma zlookup_of_nat {A} (l : list A) (n : nat) :
  zlookup l (Z.of_nat n) = l !! n.
Proof.
  unfold zlookup. rewrite decide_True by lia. by rewrite Nat2Z.id.
Qed.

Lemma zlookup_Some {A} (l : list A) z x :
  zlookup l z = Some x → 0 ≤ z ∧ l !! Z.to_nat z = Some x.
Proof. unfold zlookup. case_decide; [done | discriminate]. Qed.

Lemma zlookup_lt {A} (l : list A) z x :
  zlookup l z = Some x → 0 ≤ z < Z.of_nat (length l).
Proof.
  intros [Hz Hl]%zlookup_Some. apply lookup_lt_Some in Hl. lia.
Qed.

Lemma zlookup_zinsert {A} (l : list A) z (x : A) :
  in_bounds l z = true → zlookup (zinsert z x l) z = Some x.
Proof.
  unfold in_bounds, zlookup, zinsert. intros H%bool_decide_eq_true.
  rewrite decide_True by lia. apply list_lookup_insert_eq. lia.
Qed.

(** ** The monad *)

Lemma bind_Ok {A B} (m : M A) (k : A → M B) w b w2 :
  bind m k w = Ok b w2 → ∃ a w1, m w = Ok a w1 ∧ k a w1 = Ok b w2.
Proof.
  unfold bind. destruct (m w) as [a w1|r w1]; [eauto | discriminate].
Qed.

Lemma bind_step {A B} (m : M A) (k : A → M B) w a w1 :
  m w = Ok a w1 → bind m k w = k a w1.
Proof. unfold bind. by intros ->. Qed.

(** A loop invariant, for a loop known to finish. *)
Lemma for_from_inv (P : nat → World → Prop) body count :
  ∀ from w w',
    P O w →
    (∀ j w1 w2, (j < count)%nat → P j w1 →
                body (from + Z.of_nat j) w1 = Ok tt w2 → P (S j) w2) →
    for_from from count body w = Ok tt w' →
    P count w'.
Proof.
  revert P. induction count as [|c IH]; intros P from w w' H0 Hstep Hrun.
  - simpl in Hrun. injection Hrun as <-. done.
  - simpl in Hrun. apply bind_Ok in Hrun as ([] & w1 & Hb & Hrest).
    apply (IH (λ j, P (S j)) (from + 1) w1 w'); [| | done].
    + apply (Hstep O w w1); [lia | done |]. by rewrite Z.add_0_r.
    + intros j wa wb Hj HP Hbody. apply (Hstep (S j) wa wb); [lia | done |].
      rewrite <- Hbody. f_equal. lia.
Qed.

(** A loop invariant that also shows the loop finishes. *)
Lemma for_from_total (P : nat → World → Prop) body count :
  ∀ from w,
    P O w →
    (∀ j w1, (j < count)%nat → P j w1 →
             ∃ w2, body (from + Z.of_nat j) w1 = Ok tt w2 ∧ P (S j) w2) →
    ∃ w', for_from from count body w = Ok tt w' ∧ P count w'.
Proof.
  revert P. induction count as [|c IH]; intros P from w H0 Hstep.
  - exists w. done.
  - destruct (Hstep O w) as (w1 & Hb & HP1); [lia | done |].
    rewrite Z.add_0_r in Hb.
    destruct (IH (λ j, P (S j)) (from + 1) w1 HP1) as (w' & Hrun & HP).
    + intros j wa Hj HPa. destruct (Hstep (S j) wa) as (wb & Hbody & HPb);
        [lia | done |].
      exists wb. split; [| done]. rewrite <- Hbody. f_equal. lia.
    + exists w'. split; [| done]. simpl. by rewrite (bind_step _ _ _ _ _ Hb).
Qed.

(** ** The bitmap *)

Lemma first_clear_Some bm i :
  Bitmap.first_clear bm = Some i → bm !! i = Some false.
Proof.
  revert i. induction bm as [|b bm IH]; intros i; simpl; [done |].
  destruct b.
  - destruct (Bitmap.first_clear bm) as [j|]; simpl; [| done].
    intros [= <-]. by apply IH.
  - by intros [= <-].
Qed.

Lemma first_clear_None bm :
  Bitmap.first_clear bm = None → Bitmap.count_clear bm = O.
Proof.
  induction bm as [|b bm IH]; simpl; [done |].
  destruct b; [| done].
  destruct (Bitmap.first_clear bm); simpl; [done | auto].
Qed.

Lemma count_clear_mark bm i :
  bm !! i = Some false →
  S (Bitmap.count_clear (<[i:=true]> bm)) = Bitmap.count_clear bm.
Proof.
  revert i. induction bm as [|b bm IH]; intros i; [done |].
  destruct i as [|i]; simpl.
  - by intros [= ->].
  - intros H. destruct b; [by apply IH |]. f_equal. by apply IH.
Qed.

Lemma zlookup_Mark bm s z :
  zlookup (Bitmap.Mark bm s) z
  = if decide (z = s) then (λ _, true) <$> zlookup bm z else zlookup bm z.
Proof.
  unfold Bitmap.Mark, zlookup.
  destruct (decide (z = s)) as [->|Hne].
  - case_decide; [| done].
    destruct (bm !! Z.to_nat s) as [b|] eqn:E.
    + simpl. apply list_lookup_insert_eq. by eapply lookup_lt_Some.
    + simpl. rewrite list_insert_ge; [done |]. by apply lookup_ge_None.
  - repeat case_decide; try done.
    apply list_lookup_insert_ne. lia.
Qed.

Lemma zlookup_Clear bm s z :
  zlookup (Bitmap.Clear bm s) z
  = if decide (z = s) then (λ _, false) <$> zlookup bm z else zlookup bm z.
Proof.
  unfold Bitmap.Clear, zlookup.
  destruct (decide (z = s)) as [->|Hne].
  - case_decide; [| done].
    destruct (bm !! Z.to_nat s) as [b|] eqn:E.
    + simpl. apply list_lookup_insert_eq. by eapply lookup_lt_Some.
    + simpl. rewrite list_insert_ge; [done |]. by apply lookup_ge_None.
  - repeat case_decide; try done.
    apply list_lookup_insert_ne. lia.
Qed.

Lemma Test_marked bm s : is_marked bm s → Bitmap.Test bm s = true.
Proof. unfold is_marked, Bitmap.Test. by intros ->. Qed.

Lemma fresh_run_clear bm ss bm' :
  fresh_run bm ss bm' → ∀ z, z ∈ ss → is_clear bm z.
Proof.
  revert bm. induction ss as [|s ss IH]; intros bm Hrun z Hz.
  - by apply elem_of_nil in Hz.
  - destruct Hrun as [Hs Hrun]. apply elem_of_cons in Hz as [->|Hz]; [done |].
    specialize (IH _ Hrun z Hz). unfold is_clear in *.
    rewrite zlookup_Mark in IH. case_decide; [| done].
    subst z. rewrite Hs in IH. discriminate.
Qed.

Lemma fresh_run_NoDup bm ss bm' : fresh_run bm ss bm' → NoDup ss.
Proof.
  revert bm. induction ss as [|s ss IH]; intros bm Hrun.
  - constructor.
  - destruct Hrun as [Hs Hrun]. constructor; [| by eapply IH].
    intros Hin. pose proof (fresh_run_clear _ _ _ Hrun s Hin) as Hc.
    unfold is_clear in *. rewrite zlookup_Mark, decide_True, Hs in Hc by done.
    discriminate.
Qed.

Lemma fresh_run_lookup bm ss bm' :
  fresh_run bm ss bm' →
  ∀ z, zlookup bm' z = if decide (z ∈ ss) then Some true else zlookup bm z.
Proof.
  revert bm. induction ss as [|s ss IH]; intros bm Hrun z.
  - simpl in Hrun. subst bm'. rewrite decide_False; [done |].
    apply not_elem_of_nil.
  - destruct Hrun as [Hs Hrun]. rewrite (IH _ Hrun z), zlookup_Mark.
    unfold is_clear in Hs.
    destruct (decide (z ∈ ss)) as [Hin|Hnin].
    + rewrite decide_True; [done |]. by right.
    + destruct (decide (z = s)) as [->|Hne].
      * rewrite decide_True by left. by rewrite Hs.
      * rewrite decide_False; [done |]. by intros [?|?]%elem_of_cons.
Qed.

Lemma fresh_run_marked bm ss bm' :
  fresh_run bm ss bm' → ∀ z, z ∈ ss → is_marked bm' z.
Proof.
  intros Hrun z Hz. unfold is_marked.
  rewrite (fresh_run_lookup _ _ _ Hrun). by rewrite decide_True.
Qed.

Lemma fresh_run_app bm a b bm' :
  fresh_run bm (a ++ b) bm' ↔ ∃ bm1, fresh_run bm a bm1 ∧ fresh_run bm1 b bm'.
Proof.
  revert bm. induction a as [|s a IH]; intros bm; simpl.
  - split; [eauto |]. by intros (bm1 & -> & H).
  - rewrite IH. split.
    + intros (Hs & bm1 & H1 & H2). eauto.
    + intros (bm1 & (Hs & H1) & H2). eauto.
Qed.

Lemma fresh_run_count bm ss bm' :
  fresh_run bm ss bm' →
  Bitmap.NumClear bm' = Bitmap.NumClear bm - Z.of_nat (length ss).
Proof.
  revert bm. induction ss as [|s ss IH]; intros bm Hrun.
  - simpl in *. subst. lia.
  - destruct Hrun as [Hs Hrun]. rewrite (IH _ Hrun).
    apply zlookup_Some in Hs as [Hs0 Hs]. unfold Bitmap.NumClear, Bitmap.Mark.
    rewrite decide_True by done.
    pose proof (count_clear_mark _ _ Hs). simpl. lia.
Qed.

Lemma clear_all_lookup cs :
  ∀ bm z,
    zlookup (clear_all bm cs) z
    = if decide (z ∈ cs) then (λ _, false) <$> zlookup bm z
      else zlookup bm z.
Proof.
  induction cs as [|c cs IH]; intros bm z.
  - rewrite decide_False; [done | apply not_elem_of_nil].
  - unfold clear_all in *. simpl. rewrite IH, zlookup_Clear.
    destruct (decide (z = c)) as [->|Hne].
    + rewrite (decide_True (P := c ∈ c :: cs)) by left.
      case_decide; [| done]. by destruct (zlookup bm c).
    + destruct (decide (z ∈ cs)) as [Hin|Hnin].
      * rewrite decide_True; [done | by right].
      * rewrite decide_False; [done |]. by intros [?|?]%elem_of_cons.
Qed.

Lemma clear_all_snoc bm cs c :
  clear_all bm (cs ++ [c]) = Bitmap.Clear (clear_all bm cs) c.
Proof. unfold clear_all. by rewrite foldl_app. Qed.

Lemma clear_all_app bm a b :
  clear_all bm (a ++ b) = clear_all (clear_all bm a) b.
Proof. unfold clear_all. by rewrite foldl_app. Qed.

(** Clearing, in any order, the sectors a run has marked gives the
    bitmap back. *)
Lemma clear_all_fresh_run bm ss bm' cs :
  fresh_run bm ss bm' → (∀ z, z ∈ cs ↔ z ∈ ss) → clear_all bm' cs = bm.
Proof.
  intros Hrun Hsame. apply list_eq. intros n.
  rewrite <- !zlookup_of_nat, clear_all_lookup.
  rewrite (fresh_run_lookup _ _ _ Hrun).
  destruct (decide (Z.of_nat n ∈ cs)) as [Hin|Hnin].
  - apply Hsame in Hin. rewrite decide_True by done. simpl.
    symmetry. by eapply fresh_run_clear.
  - rewrite decide_False; [done |]. by rewrite <- Hsame.
Qed.

(** ** Steps of [Allocate] *)

Lemma ASSERT_Ok b w u w' : ASSERT b w = Ok u w' → b = true ∧ w' = w.
Proof. destruct b; simpl; [by intros [= _ <-] | discriminate]. Qed.

Lemma FindAndSet_Ok w s w' :
  FindAndSet w = Ok s w' → 0 ≤ s →
  is_clear (freeMap w) s
  ∧ w' = mkWorld (hdr w) (Bitmap.Mark (freeMap w) s) (disk w) (clearLog w).
Proof.
  unfold FindAndSet, Bitmap.FindAndSet.
  destruct (Bitmap.first_clear (freeMap w)) as [i|] eqn:E.
  - intros [= <- <-] _. split; [| done].
    unfold is_clear. rewrite zlookup_of_nat. by apply first_clear_Some.
  - intros [= <- <-]. lia.
Qed.

Lemma with_DirectSectors_id h : with_DirectSectors h (DirectSectors h) = h.
Proof. by destruct h. Qed.

Lemma with_IndirectSectors_id h :
  with_IndirectSectors h (IndirectSectors h) = h.
Proof. by destruct h. Qed.

Lemma Allocate_block_Ok count :
  ∀ w blk w',
    Allocate_block count w = Ok blk w' →
    length blk = count
    ∧ fresh_run (freeMap w) blk (freeMap w')
    ∧ hdr w' = hdr w ∧ disk w' = disk w ∧ clearLog w' = clearLog w.
Proof.
  induction count as [|c IH]; intros w blk w' Hrun; simpl in Hrun.
  - injection Hrun as <- <-. done.
  - apply bind_Ok in Hrun as (s & w1 & Hfind & Hrun).
    apply bind_Ok in Hrun as ([] & w2 & Hassert & Hrun).
    apply bind_Ok in Hrun as (rest & w3 & Hrest & Hrun).
    injection Hrun as <- <-.
    apply ASSERT_Ok in Hassert as [Hs%Z.leb_le ->].
    apply FindAndSet_Ok in Hfind as [Hclear ->]; [| done].
    apply IH in Hrest as (Hlen & Hfresh & Hh & Hd & Hl). simpl in *.
    by rewrite Hlen.
Qed.

Lemma Allocate_direct_Ok i w w' :
  Allocate_direct i w = Ok tt w' →
  ∃ s, is_clear (freeMap w) s
       ∧ in_bounds (DirectSectors (hdr w)) i = true
       ∧ w' = mkWorld
                (with_DirectSectors (hdr w)
                   (zinsert i s (DirectSectors (hdr w))))
                (Bitmap.Mark (freeMap w) s) (disk w) (clearLog w).
Proof.
  unfold Allocate_direct. intros Hrun.
  apply bind_Ok in Hrun as (s & w1 & Hfind & Hrun).
  apply bind_Ok in Hrun as ([] & w2 & Hset & Hrun).
  apply bind_Ok in Hrun as (d & w3 & Hget & Hassert).
  apply ASSERT_Ok in Hassert as [Hd%Z.leb_le ->].
  unfold set_DirectSectors, get_hdr, bind in Hset.
  destruct (in_bounds (DirectSectors (hdr w1)) i) eqn:Hin; [| done].
  injection Hset as <-.
  unfold get_DirectSectors, get_hdr, bind, read_at in Hget. simpl in Hget.
  rewrite zlookup_zinsert in Hget by done. injection Hget as <- <-.
  apply FindAndSet_Ok in Hfind as [Hclear ->]; [| done].
  exists s. done.
Qed.

Lemma Allocate_indirect_Ok i w w' :
  Allocate_indirect i w = Ok tt w' →
  ∃ s blk,
    fresh_run (freeMap w) (s :: blk) (freeMap w')
    ∧ length blk = Z.to_nat NumSectorForBlock
    ∧ in_bounds (IndirectSectors (hdr w)) i = true
    ∧ hdr w' = with_IndirectSectors (hdr w)
                 (zinsert i s (IndirectSectors (hdr w)))
    ∧ (∀ x, disk w' x = if decide (x = s) then blk else disk w x)
    ∧ clearLog w' = clearLog w.
Proof.
  unfold Allocate_indirect. intros Hrun.
  apply bind_Ok in Hrun as (s & w1 & Hfind & Hrun).
  apply bind_Ok in Hrun as ([] & w2 & Hset & Hrun).
  apply bind_Ok in Hrun as (d & w3 & Hget & Hrun).
  apply bind_Ok in Hrun as ([] & w4 & Hassert & Hrun).
  apply bind_Ok in Hrun as (blk & w5 & Hblk & Hrun).
  apply bind_Ok in Hrun as (d' & w6 & Hget' & Hwrite).
  apply ASSERT_Ok in Hassert as [Hd%Z.leb_le ->].
  unfold set_IndirectSectors, get_hdr, bind in Hset.
  destruct (in_bounds (IndirectSectors (hdr w1)) i) eqn:Hin; [| done].
  injection Hset as <-.
  unfold get_IndirectSectors, get_hdr, bind, read_at in Hget.
  simpl in Hget. rewrite zlookup_zinsert in Hget by done.
  injection Hget as <- <-.
  apply FindAndSet_Ok in Hfind as [Hclear ->]; [| done].
  apply Allocate_block_Ok in Hblk as (Hlen & Hfresh & Hh & Hdk & Hl).
  unfold get_IndirectSectors, get_hdr, bind, read_at in Hget'.
  rewrite Hh in Hget'. simpl in *.
  rewrite zlookup_zinsert in Hget' by done. injection Hget' as <- <-.
  unfold WriteSector in Hwrite. injection Hwrite as <-. simpl.
  exists s, blk. rewrite Hh, Hdk, Hl. done.
Qed.

Lemma Allocate_direct_loop count w w' :
  for_from 0 count Allocate_direct w = Ok tt w' →
  ∃ ss, length ss = count
        ∧ (count ≤ length (DirectSectors (hdr w)))%nat
        ∧ fresh_run (freeMap w) ss (freeMap w')
        ∧ hdr w' = with_DirectSectors (hdr w)
                     (ss ++ drop count (DirectSectors (hdr w)))
        ∧ disk w' = disk w ∧ clearLog w' = clearLog w.
Proof.
  apply (for_from_inv
           (λ j w1, ∃ ss, length ss = j
              ∧ (j ≤ length (DirectSectors (hdr w)))%nat
              ∧ fresh_run (freeMap w) ss (freeMap w1)
              ∧ hdr w1 = with_DirectSectors (hdr w)
                           (ss ++ drop j (DirectSectors (hdr w)))
              ∧ disk w1 = disk w ∧ clearLog w1 = clearLog w)).
  - exists []. simpl. rewrite drop_0, with_DirectSectors_id.
    repeat split; [lia | done..].
  - intros j w1 w2 Hj (ss & Hlen & Hfit & Hfresh & Hh & Hd & Hl) Hbody.
    apply Allocate_direct_Ok in Hbody as (s & Hclear & Hin & ->).
    rewrite Hh in Hin. simpl in Hin.
    apply bool_decide_eq_true in Hin.
    rewrite length_app, length_drop in Hin.
    assert (Hjlt : (j < length (DirectSectors (hdr w)))%nat) by lia.
    destruct (lookup_lt_is_Some_2 _ _ Hjlt) as [x Hx].
    exists (ss ++ [s]). simpl.
    split; [rewrite length_app; simpl; lia |].
    split; [lia |].
    split; [apply fresh_run_app; exists (freeMap w1); by split |].
    split; [| done].
    rewrite Hh. unfold with_DirectSectors, zinsert. simpl. f_equal.
    rewrite Z.add_0_l, Nat2Z.id.
    rewrite insert_app_r_alt by lia.
    rewrite Hlen, Nat.sub_diag.
    rewrite (drop_S _ x j) by done. simpl.
    by rewrite <- app_assoc.
Qed.

Lemma taken_order_snoc bl s blk :
  taken_order (bl ++ [(s, blk)]) = taken_order bl ++ s :: blk.
Proof.
  unfold taken_order. rewrite map_app, concat_app. simpl.
  by rewrite app_nil_r.
Qed.

Lemma elem_of_taken_order bl z :
  z ∈ taken_order bl ↔ ∃ sb, sb ∈ bl ∧ (z = fst sb ∨ z ∈ snd sb).
Proof.
  induction bl as [|[s b] bl IH]; simpl.
  - split; [by intros ?%elem_of_nil | by intros (? & ?%elem_of_nil & _)].
  - unfold taken_order in *. simpl.
    rewrite elem_of_cons, elem_of_app, IH. split.
    + intros [->|[Hz|(sb & Hsb & Hz)]].
      * exists (s, b). split; [left | by left].
      * exists (s, b). split; [left | by right].
      * exists sb. split; [by right | done].
    + intros (sb & [->|Hsb]%elem_of_cons & Hz); simpl in *.
      * destruct Hz; auto.
      * right. right. eauto.
Qed.

Lemma elem_of_cleared_order bl z :
  z ∈ cleared_order bl ↔ z ∈ taken_order bl.
Proof.
  induction bl as [|[s b] bl IH]; [done |].
  unfold cleared_order, taken_order in *. simpl.
  rewrite (elem_of_cons (b ++ _)), !elem_of_app, IH.
  rewrite list_elem_of_singleton. tauto.
Qed.

Lemma Allocate_indirect_loop count w w' :
  for_from 0 count Allocate_indirect w = Ok tt w' →
  ∃ bl, length bl = count
        ∧ (count ≤ length (IndirectSectors (hdr w)))%nat
        ∧ fresh_run (freeMap w) (taken_order bl) (freeMap w')
        ∧ hdr w' = with_IndirectSectors (hdr w)
                     (map fst bl ++ drop count (IndirectSectors (hdr w)))
        ∧ Forall (λ sb, length (snd sb) = Z.to_nat NumSectorForBlock) bl
        ∧ (∀ sb, sb ∈ bl → disk w' (fst sb) = snd sb)
        ∧ (∀ x, x ∉ map fst bl → disk w' x = disk w x)
        ∧ clearLog w' = clearLog w.
Proof.
  apply (for_from_inv
           (λ j w1, ∃ bl, length bl = j
              ∧ (j ≤ length (IndirectSectors (hdr w)))%nat
              ∧ fresh_run (freeMap w) (taken_order bl) (freeMap w1)
              ∧ hdr w1 = with_IndirectSectors (hdr w)
                           (map fst bl ++ drop j (IndirectSectors (hdr w)))
              ∧ Forall (λ sb, length (snd sb)
                              = Z.to_nat NumSectorForBlock) bl
              ∧ (∀ sb, sb ∈ bl → disk w1 (fst sb) = snd sb)
              ∧ (∀ x, x ∉ map fst bl → disk w1 x = disk w x)
              ∧ clearLog w1 = clearLog w)).
  - exists []. simpl. rewrite drop_0, with_IndirectSectors_id.
    repeat split; try done; try lia.
    intros sb Hsb. by apply elem_of_nil in Hsb.
  - intros j w1 w2 Hj
      (bl & Hlen & Hfit & Hfresh & Hh & Hsz & Hbl & Hdk & Hl) Hbody.
    apply Allocate_indirect_Ok in Hbody
      as (s & blk & Hrun & Hblk & Hin & Hh2 & Hdk2 & Hl2).
    rewrite Hh in Hin. simpl in Hin.
    apply bool_decide_eq_true in Hin.
    rewrite length_app, length_map, length_drop in Hin.
    assert (Hjlt : (j < length (IndirectSectors (hdr w)))%nat) by lia.
    destruct (lookup_lt_is_Some_2 _ _ Hjlt) as [x Hx].
    exists (bl ++ [(s, blk)]).
    split; [rewrite length_app; simpl; lia |].
    split; [lia |].
    split.
    { rewrite taken_order_snoc. apply fresh_run_app. by exists (freeMap w1). }
    split.
    { rewrite Hh2, Hh. unfold with_IndirectSectors, zinsert. simpl. f_equal.
      rewrite Z.add_0_l, Nat2Z.id.
      rewrite insert_app_r_alt by (rewrite length_map; lia).
      rewrite length_map, Hlen, Nat.sub_diag.
      rewrite (drop_S _ x j) by done. simpl.
      by rewrite map_app, <- app_assoc. }
    split.
    { apply Forall_app. split; [done |]. by constructor. }
    assert (Hnew : ∀ sb, sb ∈ bl → fst sb ≠ s).
    { intros sb Hsb Heq. destruct Hrun as [Hclear _].
      assert (Hm : is_marked (freeMap w1) (fst sb)).
      { eapply fresh_run_marked; [done |].
        apply elem_of_taken_order. exists sb. auto. }
      rewrite Heq in Hm. unfold is_clear, is_marked in *. congruence. }
    split.
    { intros sb [Hsb| ->%list_elem_of_singleton]%elem_of_app; rewrite Hdk2.
      - rewrite decide_False by by apply Hnew. by apply Hbl.
      - simpl. by rewrite decide_True. }
    split; [| congruence].
    intros x0 Hx0. rewrite Hdk2. rewrite map_app in Hx0. simpl in Hx0.
    rewrite decide_False.
    + apply Hdk. intros Hc. apply Hx0, elem_of_app. by left.
    + intros ->. apply Hx0, elem_of_app. right. by left.
Qed.

(** What [Allocate] returns, and what it has done when it returns
    [true]. *)
Lemma Allocate_false fileSize w :
  Bitmap.NumClear (freeMap w) < divRoundUp fileSize SectorSize →
  Allocate fileSize w
  = Ok false
      (mkWorld
         (mkFileHeader fileSize (divRoundUp fileSize SectorSize)
            (numDirectSectors (hdr w)) (numIndirectSectors (hdr w))
            (DirectSectors (hdr w)) (IndirectSectors (hdr w)))
         (freeMap w) (disk w) (clearLog w)).
Proof.
  intros Hlt. unfold Allocate, bind. simpl.
  apply Z.ltb_lt in Hlt. by rewrite Hlt.
Qed.

Lemma Allocate_true fileSize w w' :
  Allocate fileSize w = Ok true w' →
  ∃ ss bl, allocated w fileSize w' ss bl.
Proof.
  unfold Allocate. intros Hrun.
  apply bind_Ok in Hrun as ([] & w1 & H1 & Hrun). injection H1 as <-.
  apply bind_Ok in Hrun as ([] & w2 & H2 & Hrun). injection H2 as <-.
  apply bind_Ok in Hrun as (free & w3 & H3 & Hrun). injection H3 as <- <-.
  apply bind_Ok in Hrun as (h & w4 & H4 & Hrun). injection H4 as <- <-.
  simpl in Hrun.
  destruct (Bitmap.NumClear (freeMap w) <? divRoundUp fileSize SectorSize)
    eqn:Hfree; [discriminate |].
  apply Z.ltb_ge in Hfree.
  apply bind_Ok in Hrun as ([] & w5 & H5 & Hrun).
  assert (Hw5 : w5 = mkWorld (sized (hdr w) fileSize) (freeMap w) (disk w)
                       (clearLog w)).
  { unfold sized.
    destruct (NumDirect <? divRoundUp fileSize SectorSize);
      unfold bind in H5; simpl in H5; by injection H5 as <-. }
  clear H5. subst w5.
  apply bind_Ok in Hrun as (h1 & w6 & H6 & Hrun). injection H6 as <- <-.
  apply bind_Ok in Hrun as ([] & w7 & Hdirect & Hrun).
  apply bind_Ok in Hrun as (h2 & w8 & H8 & Hrun). injection H8 as <- <-.
  apply bind_Ok in Hrun as ([] & w9 & Hindirect & Hrun).
  injection Hrun as <-.
  apply Allocate_direct_loop in Hdirect
    as (ss & Hlen & Hfit & Hfresh & Hh & Hdk & Hl).
  apply Allocate_indirect_loop in Hindirect
    as (bl & Hlen' & Hfit' & Hfresh' & Hh' & Hsz & Hbl & Hdk' & Hl').
  simpl in *. rewrite Hh in *. simpl in *.
  exists ss, bl. constructor; simpl; try done; try congruence.
  - apply fresh_run_app. by exists (freeMap w7).
  - intros x Hx. rewrite Hdk'; [by rewrite Hdk | done].
Qed.

(** ** [Allocate] returns true when enough sectors are free *)

Lemma FindAndSet_free w :
  0 < Bitmap.NumClear (freeMap w) →
  ∃ s, FindAndSet w
       = Ok s (mkWorld (hdr w) (Bitmap.Mark (freeMap w) s) (disk w)
                 (clearLog w))
       ∧ 0 ≤ s
       ∧ Bitmap.NumClear (Bitmap.Mark (freeMap w) s)
         = Bitmap.NumClear (freeMap w) - 1.
Proof.
  intros Hfree. unfold FindAndSet, Bitmap.FindAndSet.
  destruct (Bitmap.first_clear (freeMap w)) as [i|] eqn:E.
  - exists (Z.of_nat i). split; [done |]. split; [lia |].
    apply first_clear_Some in E. unfold Bitmap.NumClear, Bitmap.Mark.
    rewrite decide_True by lia. rewrite Nat2Z.id.
    pose proof (count_clear_mark _ _ E). lia.
  - apply first_clear_None in E. unfold Bitmap.NumClear in Hfree. lia.
Qed.

Lemma Allocate_block_total count :
  ∀ w, Z.of_nat count ≤ Bitmap.NumClear (freeMap w) →
       ∃ blk w', Allocate_block count w = Ok blk w'
                 ∧ hdr w' = hdr w
                 ∧ Bitmap.NumClear (freeMap w')
                   = Bitmap.NumClear (freeMap w) - Z.of_nat count.
Proof.
  induction count as [|c IH]; intros w Hfree.
  - exists [], w. split_and!; [done | done | lia].
  - destruct (FindAndSet_free w) as (s & Hfind & Hs & Hcount); [lia |].
    destruct (IH (mkWorld (hdr w) (Bitmap.Mark (freeMap w) s) (disk w)
                    (clearLog w))) as (rest & w' & Hrest & Hh & Hc).
    { simpl. lia. }
    exists (s :: rest), w'. split_and!; [| done | simpl in *; lia].
    change (Allocate_block (S c) w)
      with (bind FindAndSet
              (λ s, bind (ASSERT (0 <=? s))
                      (λ _, bind (Allocate_block c)
                              (λ rest, ret (s :: rest)))) w).
    rewrite (bind_step _ _ _ _ _ Hfind). cbv beta.
    apply Z.leb_le in Hs. rewrite Hs.
    rewrite (bind_step (ASSERT true) _ _ tt _ eq_refl). cbv beta.
    by rewrite (bind_step _ _ _ _ _ Hrest).
Qed.

Lemma Allocate_direct_total i w :
  0 < Bitmap.NumClear (freeMap w) →
  in_bounds (DirectSectors (hdr w)) i = true →
  ∃ w', Allocate_direct i w = Ok tt w'
        ∧ length (DirectSectors (hdr w')) = length (DirectSectors (hdr w))
        ∧ IndirectSectors (hdr w') = IndirectSectors (hdr w)
        ∧ Bitmap.NumClear (freeMap w') = Bitmap.NumClear (freeMap w) - 1.
Proof.
  intros Hfree Hin.
  destruct (FindAndSet_free w Hfree) as (s & Hfind & Hs & Hcount).
  set (w1 := mkWorld (hdr w) (Bitmap.Mark (freeMap w) s) (disk w)
               (clearLog w)) in *.
  set (w2 := mkWorld
               (with_DirectSectors (hdr w)
                  (zinsert i s (DirectSectors (hdr w))))
               (Bitmap.Mark (freeMap w) s) (disk w) (clearLog w)).
  assert (Hset : set_DirectSectors i s w1 = Ok tt w2).
  { unfold set_DirectSectors, bind, get_hdr, put_hdr. simpl.
    by rewrite Hin. }
  assert (Hget : get_DirectSectors i w2 = Ok s w2).
  { unfold get_DirectSectors, bind, get_hdr, read_at. simpl.
    by rewrite zlookup_zinsert. }
  exists w2. unfold Allocate_direct.
  rewrite (bind_step _ _ _ _ _ Hfind). cbv beta.
  rewrite (bind_step _ _ _ _ _ Hset). cbv beta.
  rewrite (bind_step _ _ _ _ _ Hget). cbv beta.
  apply Z.leb_le in Hs. rewrite Hs.
  split_and!; [done | by apply length_insert | done | done].
Qed.

Lemma Allocate_indirect_total i w :
  1 + Z.of_nat (Z.to_nat NumSectorForBlock) ≤ Bitmap.NumClear (freeMap w) →
  in_bounds (IndirectSectors (hdr w)) i = true →
  ∃ w', Allocate_indirect i w = Ok tt w'
        ∧ length (IndirectSectors (hdr w'))
          = length (IndirectSectors (hdr w))
        ∧ Bitmap.NumClear (freeMap w')
          = Bitmap.NumClear (freeMap w)
            - (1 + Z.of_nat (Z.to_nat NumSectorForBlock)).
Proof.
  intros Hfree Hin.
  destruct (FindAndSet_free w) as (s & Hfind & Hs & Hcount); [lia |].
  set (w1 := mkWorld
               (with_IndirectSectors (hdr w)
                  (zinsert i s (IndirectSectors (hdr w))))
               (Bitmap.Mark (freeMap w) s) (disk w) (clearLog w)).
  destruct (Allocate_block_total (Z.to_nat NumSectorForBlock) w1)
    as (blk & w2 & Hblk & Hh & Hc).
  { simpl. lia. }
  assert (Hset : set_IndirectSectors i s
                   (mkWorld (hdr w) (Bitmap.Mark (freeMap w) s) (disk w)
                      (clearLog w)) = Ok tt w1).
  { unfold set_IndirectSectors, bind, get_hdr, put_hdr. simpl.
    by rewrite Hin. }
  assert (Hget : get_IndirectSectors i w1 = Ok s w1).
  { unfold get_IndirectSectors, bind, get_hdr, read_at. simpl.
    by rewrite zlookup_zinsert. }
  assert (Hget2 : get_IndirectSectors i w2 = Ok s w2).
  { unfold get_IndirectSectors, bind, get_hdr, read_at. rewrite Hh. simpl.
    by rewrite zlookup_zinsert. }
  eexists. unfold Allocate_indirect.
  rewrite (bind_step _ _ _ _ _ Hfind). cbv beta.
  rewrite (bind_step _ _ _ _ _ Hset). cbv beta.
  rewrite (bind_step _ _ _ _ _ Hget). cbv beta.
  apply Z.leb_le in Hs. rewrite Hs.
  rewrite (bind_step (ASSERT true) _ _ tt _ eq_refl). cbv beta.
  rewrite (bind_step _ _ _ _ _ Hblk). cbv beta.
  rewrite (bind_step _ _ _ _ _ Hget2). cbv beta.
  split_and!; [done | | simpl in *; lia].
  simpl. rewrite Hh. simpl. apply length_insert.
Qed.

(** [Allocate] from the loop over the direct entries on. *)
Lemma Allocate_unfold fileSize w :
  numSectors (sized (hdr w) fileSize) ≤ Bitmap.NumClear (freeMap w) →
  Allocate fileSize w
  = (for_lt (numDirectSectors (sized (hdr w) fileSize)) Allocate_direct ;;'
     h ←' get_hdr;
     for_lt (numIndirectSectors h) Allocate_indirect ;;'
     ret true)
      (mkWorld (sized (hdr w) fileSize) (freeMap w) (disk w) (clearLog w)).
Proof.
  intros Hcheck. apply Z.ltb_ge in Hcheck. simpl in Hcheck.
  unfold Allocate, sized, bind. simpl. rewrite Hcheck.
  by destruct (NumDirect <? divRoundUp fileSize SectorSize).
Qed.

(** For a file that fits the header, [Allocate] returns true as soon as
    the direct sectors, the indirection blocks and all their entries find
    a free sector each. *)
Lemma Allocate_succeeds fileSize w :
  let h := sized (hdr w) fileSize in
  let nd := Z.of_nat (Z.to_nat (numDirectSectors h)) in
  let ni := Z.of_nat (Z.to_nat (numIndirectSectors h)) in
  nd ≤ Z.of_nat (length (DirectSectors (hdr w))) →
  ni ≤ Z.of_nat (length (IndirectSectors (hdr w))) →
  numSectors h ≤ Bitmap.NumClear (freeMap w) →
  nd + ni * (1 + Z.of_nat (Z.to_nat NumSectorForBlock))
    ≤ Bitmap.NumClear (freeMap w) →
  ∃ w', Allocate fileSize w = Ok true w'.
Proof.
  intros h nd ni Hnd Hni Hcheck Hfree.
  set (w0 := mkWorld h (freeMap w) (disk w) (clearLog w)).
  set (B := 1 + Z.of_nat (Z.to_nat NumSectorForBlock)) in *.
  destruct (for_from_total
              (λ j w1,
                 length (DirectSectors (hdr w1))
                 = length (DirectSectors (hdr w))
                 ∧ IndirectSectors (hdr w1) = IndirectSectors (hdr w)
                 ∧ numIndirectSectors (hdr w1) = numIndirectSectors h
                 ∧ Bitmap.NumClear (freeMap w1)
                   = Bitmap.NumClear (freeMap w) - Z.of_nat j)
              Allocate_direct (Z.to_nat (numDirectSectors h)) 0 w0)
    as (w1 & Hdirect & Hl1 & Hi1 & Hn1 & Hc1).
  { simpl. split_and!; [done | done | done | lia]. }
  { intros j wa Hj (Hla & Hia & Hna & Hca).
    destruct (Allocate_direct_total (0 + Z.of_nat j) wa) as (wb & Hb & Hlb & Hib & Hcb).
    - subst nd ni. nia.
    - apply bool_decide_eq_true. subst nd. lia.
    - exists wb. split; [done |].
      split_and!; [congruence | congruence | | lia].
      unfold Allocate_direct in Hb.
      apply Allocate_direct_Ok in Hb as (s & _ & _ & ->). simpl. done. }
  destruct (for_from_total
              (λ j w2,
                 length (IndirectSectors (hdr w2))
                 = length (IndirectSectors (hdr w))
                 ∧ Bitmap.NumClear (freeMap w2)
                   = Bitmap.NumClear (freeMap w1) - Z.of_nat j * B)
              Allocate_indirect (Z.to_nat (numIndirectSectors h)) 0 w1)
    as (w2 & Hindirect & _).
  { split; [by rewrite Hi1 | lia]. }
  { intros j wa Hj (Hla & Hca).
    destruct (Allocate_indirect_total (0 + Z.of_nat j) wa) as (wb & Hb & Hlb & Hcb).
    - fold B. subst nd ni. nia.
    - apply bool_decide_eq_true. subst ni. lia.
    - exists wb. split; [done |]. fold B in Hcb. split; [congruence | lia]. }
  exists w2. rewrite Allocate_unfold by done. fold h w0.
  unfold for_lt. rewrite (bind_step _ _ _ _ _ Hdirect). cbv beta.
  rewrite (bind_step get_hdr _ w1 (hdr w1) w1 eq_refl). cbv beta.
  rewrite Hn1. by rewrite (bind_step _ _ _ _ _ Hindirect).
Qed.

(** ** Steps of [Deallocate] *)

Lemma cleared_order_perm bl : cleared_order bl ≡ₚ taken_order bl.
Proof.
  induction bl as [|[s b] bl IH]; [done |].
  unfold cleared_order, taken_order in *. simpl.
  rewrite IH. rewrite (Permutation_app_comm b [s]). done.
Qed.

Lemma Deallocate_entry_step l j e w :
  zlookup l j = Some e → is_marked (freeMap w) e →
  Deallocate_entry l j w
  = Ok tt (mkWorld (hdr w) (Bitmap.Clear (freeMap w) e) (disk w)
             (clearLog w ++ [e])).
Proof.
  intros Hl Hm. unfold Deallocate_entry, bind, read_at, Test.
  rewrite Hl. simpl. by rewrite (Test_marked _ _ Hm).
Qed.

Lemma Deallocate_direct_step j e w :
  zlookup (DirectSectors (hdr w)) j = Some e → is_marked (freeMap w) e →
  Deallocate_direct j w
  = Ok tt (mkWorld (hdr w) (Bitmap.Clear (freeMap w) e) (disk w)
             (clearLog w ++ [e])).
Proof.
  intros Hl Hm.
  unfold Deallocate_direct, get_DirectSectors, get_hdr, bind, read_at, Test.
  rewrite Hl. simpl. by rewrite (Test_marked _ _ Hm).
Qed.

(** A loop whose body, at index [j], tests and clears entry [j] of the
    array [l] of the header [h]. *)
Lemma clear_loop (body : Z → M unit) (h : FileHeader) (l : list Z) :
  (∀ j e w1, hdr w1 = h → zlookup l j = Some e →
             is_marked (freeMap w1) e →
             body j w1
             = Ok tt (mkWorld (hdr w1) (Bitmap.Clear (freeMap w1) e)
                        (disk w1) (clearLog w1 ++ [e]))) →
  ∀ blk from w,
    hdr w = h →
    (∀ j e, blk !! j = Some e → zlookup l (from + Z.of_nat j) = Some e) →
    NoDup blk →
    (∀ e, e ∈ blk → is_marked (freeMap w) e) →
    for_from from (length blk) body w
    = Ok tt (mkWorld (hdr w) (clear_all (freeMap w) blk) (disk w)
               (clearLog w ++ blk)).
Proof.
  intros Hbody. induction blk as [|e blk IH]; intros from w Hh Hpre Hnd Hm.
  - simpl. rewrite app_nil_r. by destruct w.
  - apply NoDup_cons in Hnd as [Hne Hnd]. simpl.
    assert (Hl0 : zlookup l from = Some e).
    { rewrite <- (Z.add_0_r from). apply (Hpre O e eq_refl). }
    assert (Hstep := Hbody from e w Hh Hl0 (Hm e ltac:(left))).
    rewrite (bind_step _ _ _ _ _ Hstep).
    rewrite IH; simpl; [by rewrite <- app_assoc | done | | done |].
    + intros j e' Hj. rewrite <- (Hpre (S j) e' Hj). f_equal. lia.
    + intros e' He'. unfold is_marked. rewrite zlookup_Clear.
      rewrite decide_False; [apply Hm; by right |].
      by intros ->.
Qed.

Lemma Deallocate_indirect_step j s b w :
  zlookup (IndirectSectors (hdr w)) j = Some s →
  disk w s = b →
  length b = Z.to_nat NumSectorForBlock →
  NoDup (s :: b) →
  (∀ e, e ∈ s :: b → is_marked (freeMap w) e) →
  Deallocate_indirect j w
  = Ok tt (mkWorld (hdr w) (clear_all (freeMap w) (b ++ [s])) (disk w)
             (clearLog w ++ b ++ [s])).
Proof.
  intros Hl Hd Hlen Hnd Hm. apply NoDup_cons in Hnd as [Hne Hnd].
  unfold Deallocate_indirect, get_IndirectSectors, get_hdr, bind, read_at,
    Test, ReadSector.
  rewrite Hl. simpl. rewrite (Test_marked _ _ (Hm s ltac:(left))). simpl.
  rewrite Hd. unfold for_lt. rewrite <- Hlen, firstn_all.
  rewrite (clear_loop (Deallocate_entry b) (hdr w) b); try done.
  - simpl. unfold Clear. simpl.
    by rewrite clear_all_snoc, <- app_assoc.
  - intros. by apply Deallocate_entry_step.
  - intros j' e Hj. by rewrite Z.add_0_l, zlookup_of_nat.
  - intros e He. apply Hm. by right.
Qed.

Lemma Deallocate_indirect_loop :
  ∀ bl from w,
    (∀ j sb, bl !! j = Some sb →
             zlookup (IndirectSectors (hdr w)) (from + Z.of_nat j)
             = Some (fst sb)) →
    (∀ sb, sb ∈ bl → disk w (fst sb) = snd sb) →
    Forall (λ sb, length (snd sb) = Z.to_nat NumSectorForBlock) bl →
    NoDup (taken_order bl) →
    (∀ e, e ∈ taken_order bl → is_marked (freeMap w) e) →
    for_from from (length bl) Deallocate_indirect w
    = Ok tt (mkWorld (hdr w) (clear_all (freeMap w) (cleared_order bl))
               (disk w) (clearLog w ++ cleared_order bl)).
Proof.
  induction bl as [|[s b] bl IH]; intros from w Hpre Hdk Hsz Hnd Hm.
  - simpl. rewrite app_nil_r. by destruct w.
  - change (taken_order ((s, b) :: bl)) with ((s :: b) ++ taken_order bl)
      in *.
    change (cleared_order ((s, b) :: bl))
      with ((b ++ [s]) ++ cleared_order bl).
    apply NoDup_app in Hnd as (Hnd1 & Hdisj & Hnd2).
    apply Forall_cons in Hsz as [Hlen Hsz]. simpl in Hlen.
    assert (Hstep : Deallocate_indirect from w
                    = Ok tt (mkWorld (hdr w)
                               (clear_all (freeMap w) (b ++ [s])) (disk w)
                               (clearLog w ++ b ++ [s]))).
    { apply Deallocate_indirect_step; try done.
      - rewrite <- (Z.add_0_r from). apply (Hpre O (s, b) eq_refl).
      - apply (Hdk (s, b)). left.
      - intros e He. apply Hm, elem_of_app. by left. }
    simpl. rewrite (bind_step _ _ _ _ _ Hstep).
    rewrite IH; simpl.
    + by rewrite (clear_all_app _ (b ++ [s])), <- !app_assoc.
    + intros j sb Hj. rewrite <- (Hpre (S j) sb Hj). f_equal. lia.
    + intros sb Hsb. apply Hdk. by right.
    + done.
    + done.
    + intros e He. unfold is_marked. rewrite clear_all_lookup.
      rewrite decide_False; [apply Hm, elem_of_app; by right |].
      intros Hin. apply (Hdisj e); [| done].
      apply elem_of_app in Hin as [Hin| ->%list_elem_of_singleton];
        [by right | left].
Qed.

Lemma Deallocate_allocated w fileSize w1 ss bl :
  allocated w fileSize w1 ss bl →
  Deallocate w1
  = Ok tt (mkWorld (hdr w1)
             (clear_all (freeMap w1) (ss ++ cleared_order bl)) (disk w1)
             (clearLog w1 ++ ss ++ cleared_order bl)).
Proof.
  intros Hal. destruct Hal.
  pose proof (fresh_run_NoDup _ _ _ al_fresh0) as Hnd.
  apply NoDup_app in Hnd as (Hnd1 & Hdisj & Hnd2).
  unfold Deallocate, for_lt.
  assert (Hdirect :
    for_from 0 (Z.to_nat (numDirectSectors (hdr w1))) Deallocate_direct w1
    = Ok tt (mkWorld (hdr w1) (clear_all (freeMap w1) ss) (disk w1)
               (clearLog w1 ++ ss))).
  { assert (Hn : numDirectSectors (hdr w1)
                 = numDirectSectors (sized (hdr w) fileSize))
      by (by rewrite al_hdr0).
    rewrite Hn, <- al_direct0.
    apply (clear_loop Deallocate_direct (hdr w1)
             (DirectSectors (hdr w1))); try done.
    - intros j e w2 Hh. rewrite <- Hh. apply Deallocate_direct_step.
    - intros j e Hj. rewrite Z.add_0_l, zlookup_of_nat, al_hdr0. simpl.
      by apply lookup_app_l_Some.
    - intros e He. eapply fresh_run_marked; [done |].
      apply elem_of_app. by left. }
  unfold bind, get_hdr. rewrite Hdirect.
  assert (Hn : numIndirectSectors (hdr w1)
               = numIndirectSectors (sized (hdr w) fileSize))
    by (by rewrite al_hdr0).
  simpl. rewrite Hn, <- al_indirect0.
  rewrite Deallocate_indirect_loop; simpl; try done.
  - by rewrite clear_all_app, <- app_assoc.
  - intros j sb Hj. rewrite Z.add_0_l, zlookup_of_nat, al_hdr0. simpl.
    apply lookup_app_l_Some. by rewrite list_lookup_fmap, Hj.
  - intros e He. unfold is_marked. rewrite clear_all_lookup.
    rewrite decide_False.
    + eapply fresh_run_marked; [done |]. apply elem_of_app. by right.
    + intros Hin. by apply (Hdisj e).
Qed.

(** ** Arithmetic of [divRoundUp] *)

Lemma divRoundUp_ge n s : 0 < s → n ≤ s * divRoundUp n s.
Proof.
  intros Hs. unfold divRoundUp.
  pose proof (Z.quot_rem' n s) as Hqr.
  destruct (Z.le_gt_cases 0 n) as [Hn|Hn].
  - pose proof (Z.rem_bound_pos n s Hn Hs).
    destruct (0 <? Z.rem n s) eqn:E; [nia |].
    apply Z.ltb_ge in E. nia.
  - pose proof (Z.rem_bound_pos_neg n s Hs ltac:(lia)).
    destruct (0 <? Z.rem n s) eqn:E; [apply Z.ltb_lt in E; lia | nia].
Qed.

(** [divRoundUp] is the ceiling of the quotient. *)
Lemma divRoundUp_ceiling n s : 0 < s → divRoundUp n s = - ((- n) `div` s).
Proof.
  intros Hs. unfold divRoundUp.
  pose proof (Z.quot_rem' n s) as Hqr.
  assert (Hb : - s < Z.rem n s < s).
  { pose proof (Z.rem_bound_abs n s ltac:(lia)). lia. }
  destruct (0 <? Z.rem n s) eqn:E.
  - apply Z.ltb_lt in E.
    rewrite <- (Z.div_unique_pos (- n) s (- (Z.quot n s + 1))
                  (s - Z.rem n s)); lia.
  - apply Z.ltb_ge in E.
    rewrite <- (Z.div_unique_pos (- n) s (- Z.quot n s) (- Z.rem n s));
      lia.
Qed.

(** ** [Allocate] and [Deallocate] *)

(** C1, as amended: when the bitmap has fewer free sectors than
    [numSectors = ceil(fileSize / SectorSize)], [Allocate] returns false
    and leaves the bitmap, the disk and the header fields
    [numDirectSectors], [numIndirectSectors], [DirectSectors] and
    [IndirectSectors] as they were; [numBytes] and [numSectors] have been
    overwritten before the check. *)
Theorem Allocate_failure_frame fileSize w :
  Bitmap.NumClear (freeMap w) < divRoundUp fileSize SectorSize →
  ∃ w', Allocate fileSize w = Ok false w'
        ∧ freeMap w' = freeMap w
        ∧ disk w' = disk w
        ∧ clearLog w' = clearLog w
        ∧ numBytes (hdr w') = fileSize
        ∧ numSectors (hdr w') = divRoundUp fileSize SectorSize
        ∧ numDirectSectors (hdr w') = numDirectSectors (hdr w)
        ∧ numIndirectSectors (hdr w') = numIndirectSectors (hdr w)
        ∧ DirectSectors (hdr w') = DirectSectors (hdr w)
        ∧ IndirectSectors (hdr w') = IndirectSectors (hdr w).
Proof.
  intros Hlt. eexists. split; [by apply Allocate_false |]. done.
Qed.

(** [Allocate] returns false exactly when the free sectors are fewer
    than [numSectors]. *)
Lemma Allocate_false_iff fileSize w w' b :
  Allocate fileSize w = Ok b w' →
  b = false ↔ Bitmap.NumClear (freeMap w) < divRoundUp fileSize SectorSize.
Proof.
  intros Hrun. split.
  - intros ->. destruct (Z.lt_ge_cases (Bitmap.NumClear (freeMap w))
                           (divRoundUp fileSize SectorSize)) as [|Hge];
      [done |].
    unfold Allocate, bind in Hrun. simpl in Hrun.
    apply Z.ltb_ge in Hge. rewrite Hge in Hrun.
    repeat match type of Hrun with
           | match ?x with _ => _ end = _ => destruct x; try discriminate
           end.
  - intros Hlt. rewrite (Allocate_false _ _ Hlt) in Hrun. congruence.
Qed.

(** C3: a successful [Allocate] followed at once by [Deallocate] gives
    the bitmap back as it was before the allocation, so that the number
    of free sectors is the one before it and no sector the call took is
    still marked; the sectors cleared are those the call had marked,
    each cleared once. *)
Theorem Allocate_Deallocate_restores fileSize w w1 :
  Allocate fileSize w = Ok true w1 →
  ∃ w2 cs,
    Deallocate w1 = Ok tt w2
    ∧ freeMap w2 = freeMap w
    ∧ Bitmap.NumClear (freeMap w2) = Bitmap.NumClear (freeMap w)
    ∧ (∀ s, is_clear (freeMap w) s → is_marked (freeMap w1) s →
            is_clear (freeMap w2) s)
    ∧ clearLog w2 = clearLog w ++ cs
    ∧ NoDup cs
    ∧ (∀ s, s ∈ cs ↔ is_clear (freeMap w) s ∧ is_marked (freeMap w1) s).
Proof.
  intros Hrun. apply Allocate_true in Hrun as (ss & bl & Hal).
  pose proof (Deallocate_allocated _ _ _ _ _ Hal) as Hde.
  destruct Hal.
  assert (Hmap : clear_all (freeMap w1) (ss ++ cleared_order bl)
                 = freeMap w).
  { eapply clear_all_fresh_run; [done |]. intros z.
    rewrite !elem_of_app. by rewrite elem_of_cleared_order. }
  eexists _, (ss ++ cleared_order bl). split; [done |]. simpl.
  rewrite Hmap, al_log0.
  split; [done |]. split; [done |]. split; [done |]. split; [done |].
  split; [rewrite cleared_order_perm; by eapply fresh_run_NoDup |].
  intros s. rewrite cleared_order_perm. split.
  - intros Hin.
    split; [by eapply fresh_run_clear | by eapply fresh_run_marked].
  - intros [Hc Hm]. unfold is_clear, is_marked in *.
    rewrite (fresh_run_lookup _ _ _ al_fresh0) in Hm.
    case_decide; [done | congruence].
Qed.

(** ** [ByteToSector] *)

Lemma ByteToSector_direct offset w v :
  offset < SectorSize * numDirectSectors (hdr w) →
  zlookup (DirectSectors (hdr w)) (Z.quot offset SectorSize) = Some v →
  ByteToSector offset w = Ok v w.
Proof.
  intros Hlt Hv. unfold ByteToSector, bind, get_hdr. simpl.
  apply Z.ltb_lt in Hlt. rewrite Hlt.
  unfold get_DirectSectors, bind, get_hdr, read_at. by rewrite Hv.
Qed.

Lemma ByteToSector_indirect offset w d v :
  SectorSize * numDirectSectors (hdr w) ≤ offset →
  zlookup (IndirectSectors (hdr w))
    (Z.quot (offset - SectorSize * numDirectSectors (hdr w))
       (SectorSize * NumSectorForBlock)) = Some d →
  zlookup (take (Z.to_nat NumSectorForBlock) (disk w d))
    (Z.rem (Z.quot (offset - SectorSize * numDirectSectors (hdr w))
              SectorSize) NumSectorForBlock) = Some v →
  ByteToSector offset w = Ok v w.
Proof.
  intros Hge Hd Hv. unfold ByteToSector, bind, get_hdr. simpl.
  apply Z.ltb_ge in Hge. rewrite Hge.
  unfold get_IndirectSectors, bind, get_hdr, read_at, ReadSector.
  rewrite Hd. simpl. by rewrite Hv.
Qed.

Lemma ByteToSector_world offset w :
  world_of (ByteToSector offset w) = w.
Proof.
  unfold ByteToSector, bind, get_hdr. simpl.
  destruct (offset <? SectorSize * numDirectSectors (hdr w)).
  - unfold get_DirectSectors, bind, get_hdr, read_at.
    by destruct (zlookup _ _).
  - unfold get_IndirectSectors, bind, get_hdr, read_at, ReadSector.
    destruct (zlookup (IndirectSectors (hdr w)) _); simpl; [| done].
    by destruct (zlookup _ _).
Qed.





(** The sector size and the number of entries of an indirection block
    are positive. *)
Hypothesis SectorSize_pos : 0 < SectorSize.
Hypothesis NumSectorForBlock_pos : 0 < NumSectorForBlock.

(** C10: in a header a successful [Allocate] has produced, and for an
    offset inside the file, the direct branch of [ByteToSector] indexes
    [DirectSectors] below [numDirectSectors], the other branch indexes
    [IndirectSectors] below [numIndirectSectors], where the entry is not
    the -1 sentinel; the call returns a sector the allocation took. *)
Theorem ByteToSector_in_allocation fileSize w w' offset :
  Allocate fileSize w = Ok true w' →
  0 ≤ offset < numBytes (hdr w') →
  let h := hdr w' in
  let rest := offset - SectorSize * numDirectSectors h in
  (offset < SectorSize * numDirectSectors h →
   0 ≤ Z.quot offset SectorSize < numDirectSectors h)
  ∧ (SectorSize * numDirectSectors h ≤ offset →
     0 ≤ Z.quot rest (SectorSize * NumSectorForBlock)
       < numIndirectSectors h
     ∧ ∃ s, zlookup (IndirectSectors h)
              (Z.quot rest (SectorSize * NumSectorForBlock)) = Some s
            ∧ s ≠ -1)
  ∧ ∃ sec, ByteToSector offset w' = Ok sec w'
           ∧ is_clear (freeMap w) sec ∧ is_marked (freeMap w') sec.
Proof.
  intros Hrun Hoff. apply Allocate_true in Hrun as (ss & bl & Hal).
  destruct Hal. simpl.
  assert (Hnb : numBytes (hdr w') = fileSize) by (by rewrite al_hdr0).
  assert (Hnd : numDirectSectors (hdr w')
                = numDirectSectors (sized (hdr w) fileSize))
    by (by rewrite al_hdr0).
  assert (Hni : numIndirectSectors (hdr w')
                = numIndirectSectors (sized (hdr w) fileSize))
    by (by rewrite al_hdr0).
  assert (Hds : DirectSectors (hdr w')
                = ss ++ drop (length ss) (DirectSectors (hdr w)))
    by (by rewrite al_hdr0).
  assert (His : IndirectSectors (hdr w')
                = map fst bl ++ drop (length bl) (IndirectSectors (hdr w)))
    by (by rewrite al_hdr0).
  rewrite Hnb in Hoff. rewrite Hnd, Hni.
  set (ns := divRoundUp fileSize SectorSize) in *.
  set (nd := numDirectSectors (sized (hdr w) fileSize)) in *.
  set (ni := numIndirectSectors (sized (hdr w) fileSize)) in *.
  pose proof (divRoundUp_ge fileSize SectorSize SectorSize_pos) as Hceil.
  fold ns in Hceil.
  assert (Hdirect : offset < SectorSize * nd →
                    0 ≤ Z.quot offset SectorSize < nd).
  { intros Hlt. rewrite Z.quot_div_nonneg by lia. split.
    - apply Z.div_pos; lia.
    - apply Z.div_lt_upper_bound; lia. }
  assert (Hindirect : SectorSize * nd ≤ offset →
            0 ≤ Z.quot (offset - SectorSize * nd)
                  (SectorSize * NumSectorForBlock) < ni
            ∧ 0 ≤ Z.rem (Z.quot (offset - SectorSize * nd) SectorSize)
                    NumSectorForBlock < NumSectorForBlock).
  { intros Hge.
    assert (Hcase : (NumDirect <? ns) = true).
    { destruct (NumDirect <? ns) eqn:E; [done |].
      subst nd. unfold sized in Hge. simpl in Hge. fold ns in Hge.
      rewrite E in Hge. nia. }
    assert (Hnd' : nd = NumDirect).
    { subst nd. unfold sized. simpl. fold ns. by rewrite Hcase. }
    assert (Hni' : ni = divRoundUp (ns - NumDirect) NumSectorForBlock).
    { subst ni. unfold sized. simpl. fold ns. by rewrite Hcase. }
    pose proof (divRoundUp_ge (ns - NumDirect) NumSectorForBlock
                  NumSectorForBlock_pos) as Hceil2.
    rewrite <- Hni' in Hceil2.
    split.
    - rewrite Z.quot_div_nonneg by nia. split.
      + apply Z.div_pos; nia.
      + apply Z.div_lt_upper_bound; nia.
    - apply Z.rem_bound_pos; [| done].
      apply Z.quot_pos; lia. }
  split; [done |].
  assert (Hsecond : SectorSize * nd ≤ offset →
    ∃ s b, bl !! Z.to_nat (Z.quot (offset - SectorSize * nd)
                             (SectorSize * NumSectorForBlock))
           = Some (s, b)
           ∧ zlookup (IndirectSectors (hdr w'))
               (Z.quot (offset - SectorSize * nd)
                  (SectorSize * NumSectorForBlock)) = Some s).
  { intros Hge. destruct (Hindirect Hge) as [Hk _].
    destruct (lookup_lt_is_Some_2 bl
                (Z.to_nat (Z.quot (offset - SectorSize * nd)
                             (SectorSize * NumSectorForBlock))))
      as [[s b] Hsb]; [lia |].
    exists s, b. split; [done |].
    unfold zlookup. rewrite decide_True by lia. rewrite His.
    apply lookup_app_l_Some. by rewrite list_lookup_fmap, Hsb. }
  split.
  - intros Hge. split; [by apply Hindirect |].
    destruct (Hsecond Hge) as (s & b & Hsb & Hs). exists s. split; [done |].
    assert (Hc : is_clear (freeMap w) s).
    { eapply fresh_run_clear; [done |]. apply elem_of_app. right.
      apply elem_of_taken_order. exists (s, b).
      split; [by eapply list_elem_of_lookup_2 | by left]. }
    apply zlookup_lt in Hc. lia.
  - destruct (Z.lt_ge_cases offset (SectorSize * nd)) as [Hlt|Hge].
    + destruct (Hdirect Hlt) as [Hq0 Hq].
      destruct (lookup_lt_is_Some_2 ss (Z.to_nat (Z.quot offset SectorSize)))
        as [sec Hsec]; [lia |].
      assert (Hin : sec ∈ ss ++ taken_order bl).
      { apply elem_of_app. left. by eapply list_elem_of_lookup_2. }
      exists sec. split; [| split].
      * apply ByteToSector_direct; [by rewrite Hnd |].
        unfold zlookup. rewrite decide_True by done. rewrite Hds.
        by apply lookup_app_l_Some.
      * by eapply fresh_run_clear.
      * by eapply fresh_run_marked.
    + destruct (Hindirect Hge) as [Hk Hr].
      destruct (Hsecond Hge) as (s & b & Hsb & Hs).
      assert (Hsbin : (s, b) ∈ bl) by (by eapply list_elem_of_lookup_2).
      pose proof (al_blocks0 _ Hsbin) as Hdisk. simpl in Hdisk.
      rewrite Forall_forall in al_block_size0.
      pose proof (al_block_size0 _ Hsbin) as Hlen. simpl in Hlen.
      destruct (lookup_lt_is_Some_2 b
                  (Z.to_nat (Z.rem (Z.quot (offset - SectorSize * nd)
                                      SectorSize) NumSectorForBlock)))
        as [sec Hsec]; [lia |].
      assert (Hin : sec ∈ ss ++ taken_order bl).
      { apply elem_of_app. right. apply elem_of_taken_order.
        exists (s, b). split; [done |]. right.
        by eapply list_elem_of_lookup_2. }
      exists sec. split; [| split].
      * eapply ByteToSector_indirect; rewrite ?Hnd; [done | done |].
        rewrite Hdisk, <- Hlen, firstn_all.
        unfold zlookup. by rewrite decide_True by lia.
      * by eapply fresh_run_clear.
      * by eapply fresh_run_marked.
Qed.

(** ** [FetchFrom] *)

Lemma before_sentinel_bounds l :
  0 ≤ before_sentinel l ≤ Z.of_nat (length l).
Proof.
  induction l as [|v l IH]; simpl; [lia |].
  destruct (v =? -1); lia.
Qed.

(** [before_sentinel l] is the position of the first -1 of [l], and the
    length of [l] when there is none. *)
Lemma before_sentinel_spec l :
  (∀ i v, 0 ≤ i < before_sentinel l → zlookup l i = Some v → v ≠ -1)
  ∧ (before_sentinel l < Z.of_nat (length l) →
     zlookup l (before_sentinel l) = Some (-1)).
Proof.
  induction l as [|v l [IH1 IH2]]; simpl.
  - split; intros; lia.
  - destruct (v =? -1) eqn:E.
    + apply Z.eqb_eq in E. subst v. split; [intros; lia | done].
    + apply Z.eqb_neq in E.
      pose proof (before_sentinel_bounds l) as Hb. split.
      * intros i v' Hi Hv. unfold zlookup in Hv.
        rewrite decide_True in Hv by lia.
        destruct (Z.to_nat i) as [|n] eqn:En; simpl in Hv.
        -- congruence.
        -- apply (IH1 (Z.of_nat n)); [lia |]. by rewrite zlookup_of_nat.
      * intros Hlt. unfold zlookup. rewrite decide_True by lia.
        replace (Z.to_nat (1 + before_sentinel l))
          with (S (Z.to_nat (before_sentinel l))) by lia.
        simpl. specialize (IH2 ltac:(lia)). unfold zlookup in IH2.
        by rewrite decide_True in IH2 by lia.
Qed.

Lemma FetchFrom_scan_Ok fuel :
  ∀ w,
    Z.of_nat (length (IndirectSectors (hdr w))) = NumIndirect →
    0 ≤ numIndirectSectors (hdr w) ≤ NumIndirect →
    NumIndirect - numIndirectSectors (hdr w) < Z.of_nat fuel →
    FetchFrom_scan fuel w
    = Ok tt
        (mkWorld
           (mkFileHeader (numBytes (hdr w)) (numSectors (hdr w))
              (numDirectSectors (hdr w))
              (numIndirectSectors (hdr w)
               + before_sentinel
                   (drop (Z.to_nat (numIndirectSectors (hdr w)))
                      (IndirectSectors (hdr w))))
              (DirectSectors (hdr w)) (IndirectSectors (hdr w)))
           (freeMap w) (disk w) (clearLog w)).
Proof.
  induction fuel as [|f IH]; intros w Hlen Hn Hfuel; [lia |].
  destruct w as [[nb ns nd n ds is_] bm dk lg]. simpl in *.
  unfold bind, get_hdr. simpl.
  destruct (n <? NumIndirect) eqn:Hlt.
  - apply Z.ltb_lt in Hlt.
    destruct (lookup_lt_is_Some_2 is_ (Z.to_nat n)) as [e He]; [lia |].
    unfold get_IndirectSectors, bind, get_hdr, read_at, zlookup. simpl.
    rewrite decide_True by lia. rewrite He. simpl.
    rewrite (drop_S _ e _ He). simpl.
    destruct (e =? -1) eqn:Ee.
    + unfold ret. by rewrite Z.add_0_r.
    + unfold set_numIndirectSectors, bind, get_hdr, put_hdr. simpl.
      rewrite IH; simpl; [| done | lia | lia].
      replace (Z.to_nat (n + 1)) with (S (Z.to_nat n)) by lia.
      do 3 f_equal. lia.
  - apply Z.ltb_ge in Hlt. unfold ret.
    rewrite drop_ge by lia. simpl. by rewrite Z.add_0_r.
Qed.

Lemma overlay_length ws img : length (overlay ws img) = length img.
Proof.
  unfold overlay. rewrite length_app, length_take, length_drop. lia.
Qed.

Lemma overlay_covered ws img :
  (length img ≤ length ws)%nat → overlay ws img = take (length img) ws.
Proof.
  intros Hle. unfold overlay. rewrite drop_ge by done. apply app_nil_r.
Qed.

(** C6: [FetchFrom] loads the record from the sector and then sets
    [numIndirectSectors] to the number of [IndirectSectors] entries
    before the first -1 ([NumIndirect] when there is none), and
    [numDirectSectors] to [NumDirect] when that number is not zero and to
    [numSectors] otherwise, whatever the two counts in the sector were. *)
Theorem FetchFrom_decodes sector w :
  Z.of_nat (length (IndirectSectors (hdr w))) = NumIndirect →
  let size := length (header_image (hdr w)) in
  let raw := header_of_image (length (DirectSectors (hdr w)))
               (overlay (disk w sector) (header_image (hdr w))) in
  ∃ w' n,
    FetchFrom sector w = Ok tt w'
    ∧ freeMap w' = freeMap w ∧ disk w' = disk w
    ∧ ((size ≤ length (disk w sector))%nat →
       raw = header_of_image (length (DirectSectors (hdr w)))
               (take size (disk w sector)))
    ∧ numBytes (hdr w') = numBytes raw
    ∧ numSectors (hdr w') = numSectors raw
    ∧ DirectSectors (hdr w') = DirectSectors raw
    ∧ IndirectSectors (hdr w') = IndirectSectors raw
    ∧ numIndirectSectors (hdr w') = n
    ∧ 0 ≤ n ≤ NumIndirect
    ∧ (∀ i v, 0 ≤ i < n → zlookup (IndirectSectors raw) i = Some v →
              v ≠ -1)
    ∧ (n < NumIndirect → zlookup (IndirectSectors raw) n = Some (-1))
    ∧ numDirectSectors (hdr w')
      = if n =? 0 then numSectors raw else NumDirect.
Proof.
  intros Hlen size raw.
  assert (Hraw : Z.of_nat (length (IndirectSectors raw)) = NumIndirect).
  { subst raw. unfold header_of_image. simpl.
    rewrite length_drop, overlay_length. rewrite <- Hlen.
    unfold header_image. simpl. rewrite length_app. lia. }
  exists (mkWorld
            (mkFileHeader (numBytes raw) (numSectors raw)
               (if before_sentinel (IndirectSectors raw) =? 0
                then numSectors raw else NumDirect)
               (before_sentinel (IndirectSectors raw))
               (DirectSectors raw) (IndirectSectors raw))
            (freeMap w) (disk w) (clearLog w)),
         (before_sentinel (IndirectSectors raw)).
  pose proof (before_sentinel_bounds (IndirectSectors raw)) as Hb.
  pose proof (before_sentinel_spec (IndirectSectors raw)) as [Hs1 Hs2].
  assert (Hcov : (size ≤ length (disk w sector))%nat →
            raw = header_of_image (length (DirectSectors (hdr w)))
                    (take size (disk w sector))).
  { intros Hsize. subst raw. by rewrite overlay_covered. }
  split.
  { unfold FetchFrom.
    remember (S (Z.to_nat NumIndirect)) as fuel eqn:Hfuel.
    unfold bind, ReadSector, get_hdr, put_hdr, set_numIndirectSectors.
    simpl. fold raw.
    rewrite FetchFrom_scan_Ok; simpl; [| done | lia | lia].
    unfold set_numDirectSectors, bind, get_hdr, put_hdr. simpl.
    change (Z.to_nat 0) with O. rewrite drop_0, !Z.add_0_l.
    by destruct (before_sentinel _ =? 0). }
  clearbody raw. simpl. split_and!; try done; try lia.
  intros Hn. apply Hs2. lia.
Qed.

(** ** Directory: strings and scans *)

Lemma strncmp_strncpy n :
  ∀ dst src, strncmp (strncpy dst src n) src n = 0.
Proof.
  induction n as [|n IH]; intros dst src; simpl; [done |].
  rewrite Z.eqb_refl. simpl.
  destruct (code (head_char src) =? 0) eqn:E; [done |].
  apply IH.
Qed.

Lemma claim_slot_matches e nm s b :
  name_matches (claim_slot e nm s b) nm = true.
Proof.
  unfold name_matches, claim_slot. simpl. by rewrite strncmp_strncpy.
Qed.

Lemma release_slot_no_match e nm : name_matches (release_slot e) nm = false.
Proof. done. Qed.

Lemma FindIndex_from_spec t nm :
  ∀ i,
    (FindIndex_from i t nm = -1
     ∧ ∀ p e, t !! p = Some e → name_matches e nm = false)
    ∨ (∃ p e, FindIndex_from i t nm = i + Z.of_nat p
              ∧ t !! p = Some e
              ∧ name_matches e nm = true
              ∧ ∀ q e', (q < p)%nat → t !! q = Some e' →
                        name_matches e' nm = false)
    ∨ i < 0.
Proof.
  induction t as [|e t IH]; intros i; simpl.
  - left. split; [done |]. intros p e. by rewrite lookup_nil.
  - destruct (name_matches e nm) eqn:Em.
    + right. left. exists O, e. rewrite Z.add_0_r.
      split_and!; try done. intros; lia.
    + destruct (IH (i + 1)) as [[Hk Hall]|[(p & e' & Hk & Hp & Hm & Hq)|Hi]].
      * left. split; [done |]. intros [|p] e'; simpl; [congruence | eauto].
      * right. left. exists (S p), e'. split_and!; try done; [lia |].
        intros [|q] e2 Hlt; simpl; [congruence |].
        apply Hq. lia.
      * right. right. lia.
Qed.

Lemma FindIndex_absent d nm :
  (∀ p e, table d !! p = Some e → name_matches e nm = false) →
  FindIndex d nm = -1.
Proof.
  intros Hall. unfold FindIndex.
  destruct (FindIndex_from_spec (table d) nm 0)
    as [[Hk _]|[(p & e & Hk & Hp & Hm & Hq)|Hi]]; [done | | lia].
  rewrite (Hall _ _ Hp) in Hm. discriminate.
Qed.

Lemma FindIndex_absent_inv d nm :
  FindIndex d nm = -1 →
  ∀ p e, table d !! p = Some e → name_matches e nm = false.
Proof.
  unfold FindIndex. intros Hk.
  destruct (FindIndex_from_spec (table d) nm 0)
    as [[_ Hall]|[(p & e & Hk' & Hp & Hm & Hq)|Hi]]; [done | lia | lia].
Qed.

Lemma FindIndex_first d nm p e :
  table d !! p = Some e →
  name_matches e nm = true →
  (∀ q e', (q < p)%nat → table d !! q = Some e' →
           name_matches e' nm = false) →
  FindIndex d nm = Z.of_nat p.
Proof.
  intros Hp Hm Hq. unfold FindIndex.
  destruct (FindIndex_from_spec (table d) nm 0)
    as [[_ Hall]|[(p' & e' & Hk & Hp' & Hm' & Hq')|Hi]]; [| | lia].
  - rewrite (Hall _ _ Hp) in Hm. discriminate.
  - rewrite Hk, Z.add_0_l. f_equal.
    destruct (Nat.lt_trichotomy p p') as [Hlt|[Heq|Hgt]]; [| done |].
    + rewrite (Hq' _ _ Hlt Hp) in Hm. discriminate.
    + rewrite (Hq _ _ Hgt Hp') in Hm'. discriminate.
Qed.

Lemma FindIndex_present d nm :
  FindIndex d nm ≠ -1 →
  ∃ p e, FindIndex d nm = Z.of_nat p
         ∧ table d !! p = Some e
         ∧ name_matches e nm = true
         ∧ ∀ q e', (q < p)%nat → table d !! q = Some e' →
                   name_matches e' nm = false.
Proof.
  unfold FindIndex. intros Hk.
  destruct (FindIndex_from_spec (table d) nm 0)
    as [[Hk' _]|[(p & e & Hk' & Hp & Hm & Hq)|Hi]]; [done | | lia].
  exists p, e. by rewrite Hk', Z.add_0_l.
Qed.

Lemma Add_scan_spec t nm s b :
  match Add_scan t nm s b with
  | Some t' =>
      ∃ p e, t !! p = Some e ∧ inUse e = false
             ∧ t' = <[p := claim_slot e nm s b]> t
  | None => ∀ p e, t !! p = Some e → inUse e = true
  end.
Proof.
  induction t as [|e t IH]; simpl.
  - intros p e. by rewrite lookup_nil.
  - destruct (inUse e) eqn:Eu; simpl.
    + destruct (Add_scan t nm s b) as [t'|]; simpl.
      * destruct IH as (p & e' & Hp & Hu & ->). by exists (S p), e'.
      * intros [|p] e'; simpl; [congruence | eauto].
    + by exists O, e.
Qed.

Lemma in_use_count_le t : (in_use_count t ≤ length t)%nat.
Proof.
  induction t as [|e t IH]; simpl; [lia |]. destruct (inUse e); lia.
Qed.

Lemma in_use_count_claim t p e e' :
  t !! p = Some e → inUse e = false → inUse e' = true →
  in_use_count (<[p := e']> t) = S (in_use_count t).
Proof.
  revert p. induction t as [|e0 t IH]; intros p Hp Hu Hu'; [done |].
  destruct p as [|p]; simpl in *.
  - injection Hp as ->. by rewrite Hu, Hu'.
  - rewrite (IH p) by done. lia.
Qed.

Lemma in_use_count_full t :
  in_use_count t = length t → ∀ p e, t !! p = Some e → inUse e = true.
Proof.
  induction t as [|e0 t IH]; intros Hc p e Hp; [by rewrite lookup_nil in Hp |].
  pose proof (in_use_count_le t). simpl in Hc.
  destruct (inUse e0) eqn:Eu; [| lia].
  destruct p as [|p]; simpl in Hp; [congruence |].
  apply (IH ltac:(lia) p e Hp).
Qed.

(** The two outcomes of [Add]. *)
Lemma Add_cases d nm s b :
  (Add d nm s b = (false, d)
   ∧ (FindIndex d nm ≠ -1
      ∨ ∀ p e, table d !! p = Some e → inUse e = true))
  ∨ (∃ p e, table d !! p = Some e ∧ inUse e = false
            ∧ FindIndex d nm = -1
            ∧ Add d nm s b
              = (true, mkDirectory (<[p := claim_slot e nm s b]> (table d)))).
Proof.
  unfold Add. destruct (FindIndex d nm =? -1) eqn:Ef; simpl.
  - apply Z.eqb_eq in Ef.
    pose proof (Add_scan_spec (table d) nm s b) as Hscan.
    destruct (Add_scan (table d) nm s b) as [t'|].
    + right. destruct Hscan as (p & e & Hp & Hu & ->). by exists p, e.
    + left. auto.
  - apply Z.eqb_neq in Ef. left. auto.
Qed.

(** The two outcomes of [Remove]. *)
Lemma Remove_cases d nm :
  (Remove d nm = (false, d) ∧ FindIndex d nm = -1)
  ∨ (∃ p e, table d !! p = Some e ∧ name_matches e nm = true
            ∧ FindIndex d nm = Z.of_nat p
            ∧ (∀ q e', (q < p)%nat → table d !! q = Some e' →
                       name_matches e' nm = false)
            ∧ Remove d nm
              = (true, mkDirectory (alter release_slot p (table d)))).
Proof.
  unfold Remove. destruct (FindIndex d nm =? -1) eqn:Ef.
  - apply Z.eqb_eq in Ef. by left.
  - apply Z.eqb_neq in Ef. right.
    destruct (FindIndex_present d nm Ef) as (p & e & Hk & Hp & Hm & Hq).
    exists p, e. rewrite Hk, Nat2Z.id. done.
Qed.

(** ** Directory: [Add], [Find], [Remove] *)

Lemma Add_true d nm s b d' :
  Add d nm s b = (true, d') →
  in_use_count (table d') = S (in_use_count (table d))
  ∧ length (table d') = length (table d).
Proof.
  destruct (Add_cases d nm s b) as [[-> _]|(p & e & Hp & Hu & _ & ->)];
    [discriminate |].
  intros [= <-]. simpl. split.
  - by eapply in_use_count_claim.
  - apply length_insert.
Qed.

Lemma AddAll_count adds :
  ∀ d d', AddAll d adds = Some d' →
          in_use_count (table d')
          = (in_use_count (table d) + length adds)%nat
          ∧ length (table d') = length (table d).
Proof.
  induction adds as [|[[nm s] b] adds IH]; intros d d' Hrun; simpl in *.
  - injection Hrun as <-. split; [lia | done].
  - destruct (Add d nm s b) as [[] d1] eqn:Ea; [| discriminate].
    apply Add_true in Ea as [Hc Hl].
    apply IH in Hrun as [Hc' Hl']. split; [lia | congruence].
Qed.

Lemma Add_full d nm s b :
  (∀ p e, table d !! p = Some e → inUse e = true) →
  Add d nm s b = (false, d).
Proof.
  intros Hfull.
  destruct (Add_cases d nm s b) as [[-> _]|(p & e & Hp & Hu & _ & _)];
    [done |].
  rewrite (Hfull _ _ Hp) in Hu. discriminate.
Qed.

Lemma Find_at d nm p e :
  FindIndex d nm = Z.of_nat p → table d !! p = Some e →
  Find d nm = sector e.
Proof.
  intros Hk Hp. unfold Find. rewrite Hk.
  destruct (Z.of_nat p =? -1) eqn:E; [apply Z.eqb_eq in E; lia |]. simpl.
  by rewrite zlookup_of_nat, Hp.
Qed.

Lemma Find_absent d nm : FindIndex d nm = -1 → Find d nm = -1.
Proof. intros Hk. unfold Find. by rewrite Hk. Qed.

(** C7: in a directory with a free slot that does not hold [nm],
    [Add nm s] returns true and then [Find nm] is [s]; a second [Add] of
    [nm] returns false and changes nothing; [Remove nm] then returns
    true, after which [Find nm] is -1 and a second [Remove nm] returns
    false.  After as many successful insertions as the table has slots,
    every [Add] returns false. *)
Theorem Directory_Add_Find_Remove d nm s isDir s' isDir' :
  FindIndex d nm = -1 →
  (∃ e, e ∈ table d ∧ inUse e = false) →
  (∃ d1 d2,
     Add d nm s isDir = (true, d1)
     ∧ Find d1 nm = s
     ∧ Add d1 nm s' isDir' = (false, d1)
     ∧ Remove d1 nm = (true, d2)
     ∧ Find d2 nm = -1
     ∧ Remove d2 nm = (false, d2))
  ∧ (∀ adds dn,
       Z.of_nat (length adds) = tableSize d →
       AddAll d adds = Some dn →
       ∀ nm' s'' isDir'', Add dn nm' s'' isDir'' = (false, dn)).
Proof.
  intros Habsent (e0 & [p0 Hp0]%list_elem_of_lookup_1 & Hfree). split.
  - pose proof (FindIndex_absent_inv _ _ Habsent) as Hnone.
    destruct (Add_cases d nm s isDir)
      as [[_ [Hk|Hfull]]|(p & e & Hp & Hu & _ & Hadd)].
    { done. }
    { rewrite (Hfull _ _ Hp0) in Hfree. discriminate. }
    set (d1 := mkDirectory (<[p := claim_slot e nm s isDir]> (table d)))
      in *.
    assert (Hlt : (p < length (table d))%nat) by by eapply lookup_lt_Some.
    assert (Hp1 : table d1 !! p = Some (claim_slot e nm s isDir)).
    { simpl. by apply list_lookup_insert_eq. }
    assert (Hk1 : FindIndex d1 nm = Z.of_nat p).
    { eapply FindIndex_first; [done | apply claim_slot_matches |].
      intros q e' Hq He'. simpl in He'.
      rewrite list_lookup_insert_ne in He' by lia. by eapply Hnone. }
    set (d2 := mkDirectory (alter release_slot p (table d1))).
    assert (Hk2 : FindIndex d2 nm = -1).
    { apply FindIndex_absent. intros q e' He'. simpl in He'.
      destruct (decide (q = p)) as [->|Hne].
      - rewrite list_lookup_alter_eq, list_lookup_insert_eq in He' by done.
        injection He' as <-. apply release_slot_no_match.
      - rewrite list_lookup_alter_ne, list_lookup_insert_ne in He' by done.
        by eapply Hnone. }
    exists d1, d2. split_and!.
    + done.
    + by rewrite (Find_at _ _ _ _ Hk1 Hp1).
    + unfold Add. rewrite Hk1.
      by destruct (Z.of_nat p =? -1) eqn:E; [apply Z.eqb_eq in E; lia |].
    + unfold Remove. rewrite Hk1.
      destruct (Z.of_nat p =? -1) eqn:E; [apply Z.eqb_eq in E; lia |].
      by rewrite Nat2Z.id.
    + by apply Find_absent.
    + unfold Remove. by rewrite Hk2.
  - intros adds dn Hlen Hrun nm' s'' isDir''.
    apply AddAll_count in Hrun as [Hc Hl]. apply Add_full.
    apply in_use_count_full.
    pose proof (in_use_count_le (table dn)). unfold tableSize in Hlen. lia.
Qed.

(** C8: when [nm] is in the directory, [Remove nm] returns true; the
    slot found has its in-use flag cleared and its name filled with
    ['\0'], and keeps its sector and its directory flag; every other
    slot is as before, and so are the bitmap and the disk. *)
Theorem Remove_frame d nm w :
  (∃ e, e ∈ table d ∧ name_matches e nm = true) →
  ∃ p e d',
    FindIndex d nm = Z.of_nat p
    ∧ table d !! p = Some e
    ∧ Remove_in nm (d, w) = (true, (d', w))
    ∧ table d' !! p = Some (release_slot e)
    ∧ inUse (release_slot e) = false
    ∧ all_zero (name (release_slot e))
    ∧ length (name (release_slot e)) = length (name e)
    ∧ sector (release_slot e) = sector e
    ∧ isDirectory (release_slot e) = isDirectory e
    ∧ length (table d') = length (table d)
    ∧ ∀ q, q ≠ p → table d' !! q = table d !! q.
Proof.
  intros (e0 & [p0 Hp0]%list_elem_of_lookup_1 & Hm0).
  destruct (Remove_cases d nm)
    as [[_ Hk]|(p & e & Hp & Hm & Hk & Hq & Hrem)].
  { rewrite (FindIndex_absent_inv _ _ Hk _ _ Hp0) in Hm0. discriminate. }
  exists p, e, (mkDirectory (alter release_slot p (table d))).
  unfold Remove_in. simpl. rewrite Hrem.
  split_and!; try done.
  - by rewrite list_lookup_alter_eq, Hp.
  - apply Forall_forall. intros c Hc.
    by apply elem_of_replicate in Hc as [-> _].
  - unfold memset_zero. apply length_replicate.
  - apply length_alter.
  - intros q Hne. by apply list_lookup_alter_ne.
Qed.

(** ** Directory: slots not in use *)

Lemma call_slot d c i e1 :
  table (snd (call d c)) !! i = Some e1 → inUse e1 = false →
  ∃ e0, table d !! i = Some e0
        ∧ sector e1 = sector e0 ∧ isDirectory e1 = isDirectory e0
        ∧ (e1 = e0 ∨ e1 = release_slot e0).
Proof.
  intros Hi Hu. destruct c as [nm s b|nm]; simpl in Hi.
  - destruct (Add_cases d nm s b) as [[Ha _]|(p & e & Hp & _ & _ & Ha)];
      rewrite Ha in Hi; simpl in Hi; [by eauto 6 |].
    destruct (decide (i = p)) as [->|Hne].
    + rewrite list_lookup_insert_eq in Hi by by eapply lookup_lt_Some.
      injection Hi as <-. discriminate.
    + rewrite list_lookup_insert_ne in Hi by done. by eauto 6.
  - destruct (Remove_cases d nm) as [[Hr _]|(p & e & Hp & _ & _ & _ & Hr)];
      rewrite Hr in Hi; simpl in Hi; [by eauto 6 |].
    destruct (decide (i = p)) as [->|Hne].
    + rewrite list_lookup_alter_eq, Hp in Hi. injection Hi as <-.
      exists e. auto.
    + rewrite list_lookup_alter_ne in Hi by done. by eauto 6.
Qed.

Lemma run_names cs :
  ∀ d,
    (∀ i e, table d !! i = Some e → inUse e = false → all_zero (name e)) →
    ∀ i e, table (run d cs) !! i = Some e → inUse e = false →
           all_zero (name e).
Proof.
  induction cs as [|c cs IH]; intros d Hinv; [done |].
  apply IH. intros i e1 Hi Hu.
  destruct (call_slot _ _ _ _ Hi Hu) as (e0 & H0 & _ & _ & [->| ->]).
  - by eapply Hinv.
  - apply Forall_forall. intros ch Hc.
    by apply elem_of_replicate in Hc as [-> _].
Qed.

Lemma run_held i cs :
  ∀ d last,
    (∀ e, table d !! i = Some e → inUse e = false →
          (sector e, isDirectory e) = last) →
    ∀ e, table (run d cs) !! i = Some e → inUse e = false →
         (sector e, isDirectory e) = last_held i d cs last.
Proof.
  induction cs as [|c cs IH]; intros d last Hinv e Hi Hu; simpl in *.
  - rewrite Hi, Hu. by apply Hinv.
  - eapply IH; [| done | done].
    intros e1 Hi1 Hu1.
    destruct (call_slot _ _ _ _ Hi1 Hu1) as (e0 & H0 & Hs & Hd & _).
    rewrite H0, Hs, Hd. destruct (inUse e0) eqn:E0; [done |].
    by apply Hinv.
Qed.

(** C9: in a directory reached from a new one by calls of [Add] and
    [Remove], a slot not in use has a name of ['\0'] only, and its sector
    and directory flag are those it held when it was last in use, and -1
    and false when it never was. *)
Theorem free_slot_invariant size cs i e :
  table (run (Directory_new size) cs) !! i = Some e →
  inUse e = false →
  all_zero (name e)
  ∧ (sector e, isDirectory e)
    = last_held i (Directory_new size) cs (-1, false).
Proof.
  intros Hi Hu.
  assert (Hnew : ∀ j e0, table (Directory_new size) !! j = Some e0 →
                         e0 = DirectoryEntry_new).
  { intros j e0 Hj. simpl in Hj. by apply lookup_replicate_1 in Hj as [-> _]. }
  split.
  - eapply run_names; [| done | done].
    intros j e0 Hj _. rewrite (Hnew _ _ Hj). simpl.
    apply Forall_forall. intros c Hc.
    by apply elem_of_replicate in Hc as [-> _].
  - eapply run_held; [| done | done].
    intros e0 Hj _. by rewrite (Hnew _ _ Hj).
Qed.

(** ** More on [Allocate]: what it takes and what it leaves *)

Lemma Mark_length bm s : length (Bitmap.Mark bm s) = length bm.
Proof. unfold Bitmap.Mark. case_decide; [apply length_insert | done]. Qed.


Lemma fresh_run_length bm ss bm' :
  fresh_run bm ss bm' → length bm' = length bm.
Proof.
  revert bm. induction ss as [|s ss IH]; intros bm Hrun; simpl in Hrun.
  - by subst.
  - destruct Hrun as [_ Hrun]. rewrite (IH _ Hrun). apply Mark_length.
Qed.


Lemma taken_order_length bl n :
  Forall (λ sb, length (snd sb) = n) bl →
  length (taken_order bl) = (length bl * S n)%nat.
Proof.
  induction bl as [|[s b] bl IH]; intros Hall; [done |].
  apply Forall_cons in Hall as [Hb Hall]. simpl in Hb.
  unfold taken_order in *. simpl. rewrite length_app, (IH Hall), Hb. lia.
Qed.

(** X1: a successful [Allocate] sets [numDirectSectors] to the smaller of
    [numSectors] and [NumDirect], [numIndirectSectors] to the number of
    blocks the remaining sectors need, and takes one sector for each direct
    entry plus [1 + NumSectorForBlock] sectors for each indirection
    block. *)
Theorem Allocate_sector_count fileSize w w' :
  Allocate fileSize w = Ok true w' →
  let ns := divRoundUp fileSize SectorSize in
  let nd := Z.min ns NumDirect in
  let ni := if NumDirect <? ns
            then divRoundUp (ns - NumDirect) NumSectorForBlock else 0 in
  numBytes (hdr w') = fileSize
  ∧ numSectors (hdr w') = ns
  ∧ numDirectSectors (hdr w') = nd
  ∧ numIndirectSectors (hdr w') = ni
  ∧ length (freeMap w') = length (freeMap w)
  ∧ Bitmap.NumClear (freeMap w')
    = Bitmap.NumClear (freeMap w)
      - (Z.max 0 nd + Z.max 0 ni * (1 + Z.max 0 NumSectorForBlock)).
Proof using Type.
  clear SectorSize_pos NumSectorForBlock_pos.
  intros Hrun ns nd ni. apply Allocate_true in Hrun as (ss & bl & Hal).
  destruct Hal as [_ Hld Hli _ _ Hh Hfresh Hsz _ _ _].
  assert (Hnd : numDirectSectors (sized (hdr w) fileSize) = nd).
  { unfold sized. simpl. fold ns. subst nd.
    destruct (NumDirect <? ns) eqn:E;
      [apply Z.ltb_lt in E | apply Z.ltb_ge in E]; lia. }
  assert (Hni : numIndirectSectors (sized (hdr w) fileSize) = ni) by done.
  rewrite Hnd in Hld. rewrite Hni in Hli.
  rewrite Hh. simpl. fold ns.
  split; [done |]. split; [done |]. split; [done |]. split; [done |].
  split; [by eapply fresh_run_length |].
  rewrite (fresh_run_count _ _ _ Hfresh), length_app.
  rewrite (taken_order_length _ _ Hsz), Hld, Hli.
  rewrite Nat2Z.inj_add, Nat2Z.inj_mul, Nat2Z.inj_succ.
  rewrite !ZifyInst.of_nat_to_nat_eq. lia.
Qed.

(** X2: a successful [Allocate] of a file that fits the header (the two
    counts do not exceed the sizes of the two arrays) keeps every marked
    sector marked, and changes the disk only at sectors that were free,
    which it has marked and entered in [IndirectSectors]. *)
Theorem Allocate_writes_free_sectors fileSize w w' :
  Allocate fileSize w = Ok true w' →
  numDirectSectors (hdr w') ≤ Z.of_nat (length (DirectSectors (hdr w'))) →
  numIndirectSectors (hdr w')
  ≤ Z.of_nat (length (IndirectSectors (hdr w'))) →
  (∀ s, is_marked (freeMap w) s → is_marked (freeMap w') s)
  ∧ (∀ x, disk w' x ≠ disk w x →
          is_clear (freeMap w) x ∧ is_marked (freeMap w') x
          ∧ x ∈ IndirectSectors (hdr w'))
  ∧ clearLog w' = clearLog w.
Proof.
  intros Hrun _ _. apply Allocate_true in Hrun as (ss & bl & Hal).
  destruct Hal as [_ _ _ _ _ Hh Hfresh _ _ Hdisk Hlog].
  split; [| split; [| done]].
  - intros s Hs. unfold is_marked in *.
    rewrite (fresh_run_lookup _ _ _ Hfresh). by case_decide.
  - intros x Hx.
    destruct (decide (x ∈ map fst bl)) as [Hin|Hnin];
      [| by specialize (Hdisk x Hnin)].
    assert (Hin' : x ∈ ss ++ taken_order bl).
    { apply elem_of_app. right. apply elem_of_taken_order.
      apply list_elem_of_fmap in Hin as (sb & -> & Hsb). exists sb. auto. }
    split; [by eapply fresh_run_clear |].
    split; [by eapply fresh_run_marked |].
    rewrite Hh. simpl. apply elem_of_app. by left.
Qed.

Lemma divRoundUp_nonpos n s : 0 < s → n ≤ 0 → divRoundUp n s ≤ 0.
Proof.
  intros Hs Hn. rewrite divRoundUp_ceiling by done.
  pose proof (Z.div_pos (- n) s ltac:(lia) Hs). lia.
Qed.

Lemma divRoundUp_pos n s : 0 < s → 0 < n → 0 < divRoundUp n s.
Proof. intros Hs Hn. pose proof (divRoundUp_ge n s Hs). nia. Qed.

(** X3: for a size that is zero or negative, [Allocate] returns true
    without taking a sector: the bitmap, the disk and both arrays are as
    before, [numIndirectSectors] is 0, and [numDirectSectors] is the
    [numSectors] computed, which is not positive. *)
Theorem Allocate_empty_file fileSize w :
  0 ≤ NumDirect →
  fileSize ≤ 0 →
  divRoundUp fileSize SectorSize ≤ 0
  ∧ Allocate fileSize w
    = Ok true
        (mkWorld
           (mkFileHeader fileSize (divRoundUp fileSize SectorSize)
              (divRoundUp fileSize SectorSize) 0
              (DirectSectors (hdr w)) (IndirectSectors (hdr w)))
           (freeMap w) (disk w) (clearLog w)).
Proof.
  intros Hnd Hsize.
  pose proof (divRoundUp_nonpos fileSize SectorSize SectorSize_pos Hsize)
    as Hns.
  split; [done |].
  assert (Hcase : (NumDirect <? divRoundUp fileSize SectorSize) = false)
    by (apply Z.ltb_ge; lia).
  rewrite Allocate_unfold.
  - unfold sized. rewrite Hcase. unfold for_lt, bind, get_hdr. simpl.
    by replace (Z.to_nat (divRoundUp fileSize SectorSize)) with O by lia.
  - unfold sized. simpl. unfold Bitmap.NumClear. lia.
Qed.

(** ** The three outcomes of [Allocate] *)

Lemma count_clear_pos bm i :
  bm !! i = Some false → (0 < Bitmap.count_clear bm)%nat.
Proof.
  revert i. induction bm as [|b bm IH]; intros i Hi; [done |].
  destruct i as [|i]; simpl in *.
  - injection Hi as ->. lia.
  - destruct b; [by eapply IH | lia].
Qed.

Lemma FindAndSet_none w :
  Bitmap.NumClear (freeMap w) = 0 → FindAndSet w = Ok (-1) w.
Proof.
  intros Hfree. unfold FindAndSet, Bitmap.FindAndSet.
  destruct (Bitmap.first_clear (freeMap w)) as [i|] eqn:E.
  - apply first_clear_Some, count_clear_pos in E.
    unfold Bitmap.NumClear in Hfree. lia.
  - by destruct w.
Qed.

Lemma Allocate_block_short count :
  ∀ w, Bitmap.NumClear (freeMap w) < Z.of_nat count →
       ∃ w', Allocate_block count w = Stop AssertFailed w'.
Proof using Type.
  clear SectorSize_pos NumSectorForBlock_pos.
  induction count as [|c IH]; intros w Hfree.
  - unfold Bitmap.NumClear in Hfree. lia.
  - change (Allocate_block (S c) w)
      with (bind FindAndSet
              (λ s, bind (ASSERT (0 <=? s))
                      (λ _, bind (Allocate_block c)
                              (λ rest, ret (s :: rest)))) w).
    destruct (decide (Bitmap.NumClear (freeMap w) = 0)) as [H0|Hpos].
    + rewrite (bind_step _ _ _ _ _ (FindAndSet_none w H0)). by exists w.
    + destruct (FindAndSet_free w) as (s & Hfind & Hs & Hcount).
      { unfold Bitmap.NumClear in *. lia. }
      rewrite (bind_step _ _ _ _ _ Hfind). cbv beta.
      apply Z.leb_le in Hs. rewrite Hs.
      rewrite (bind_step (ASSERT true) _ _ tt _ eq_refl). cbv beta.
      destruct (IH (mkWorld (hdr w) (Bitmap.Mark (freeMap w) s) (disk w)
                      (clearLog w))) as [w' Hw'].
      { simpl. lia. }
      exists w'. unfold bind. by rewrite Hw'.
Qed.

Lemma Allocate_direct_short i w :
  Bitmap.NumClear (freeMap w) = 0 →
  in_bounds (DirectSectors (hdr w)) i = true →
  ∃ w', Allocate_direct i w = Stop AssertFailed w'.
Proof using Type.
  clear SectorSize_pos NumSectorForBlock_pos.
  intros Hfree Hin.
  set (w1 := mkWorld
               (with_DirectSectors (hdr w)
                  (zinsert i (-1) (DirectSectors (hdr w))))
               (freeMap w) (disk w) (clearLog w)).
  assert (Hset : set_DirectSectors i (-1) w = Ok tt w1).
  { unfold set_DirectSectors, bind, get_hdr, put_hdr. by rewrite Hin. }
  assert (Hget : get_DirectSectors i w1 = Ok (-1) w1).
  { unfold get_DirectSectors, bind, get_hdr, read_at. simpl.
    by rewrite zlookup_zinsert. }
  exists w1. unfold Allocate_direct.
  rewrite (bind_step _ _ _ _ _ (FindAndSet_none w Hfree)). cbv beta.
  rewrite (bind_step _ _ _ _ _ Hset). cbv beta.
  by rewrite (bind_step _ _ _ _ _ Hget).
Qed.

Lemma Allocate_indirect_short i w :
  Bitmap.NumClear (freeMap w) < 1 + Z.of_nat (Z.to_nat NumSectorForBlock) →
  in_bounds (IndirectSectors (hdr w)) i = true →
  ∃ w', Allocate_indirect i w = Stop AssertFailed w'.
Proof using Type.
  clear SectorSize_pos NumSectorForBlock_pos.
  intros Hfree Hin.
  destruct (decide (Bitmap.NumClear (freeMap w) = 0)) as [H0|Hpos].
  - set (w1 := mkWorld
                 (with_IndirectSectors (hdr w)
                    (zinsert i (-1) (IndirectSectors (hdr w))))
                 (freeMap w) (disk w) (clearLog w)).
    assert (Hset : set_IndirectSectors i (-1) w = Ok tt w1).
    { unfold set_IndirectSectors, bind, get_hdr, put_hdr. by rewrite Hin. }
    assert (Hget : get_IndirectSectors i w1 = Ok (-1) w1).
    { unfold get_IndirectSectors, bind, get_hdr, read_at. simpl.
      by rewrite zlookup_zinsert. }
    exists w1. unfold Allocate_indirect.
    rewrite (bind_step _ _ _ _ _ (FindAndSet_none w H0)). cbv beta.
    rewrite (bind_step _ _ _ _ _ Hset). cbv beta.
    by rewrite (bind_step _ _ _ _ _ Hget).
  - destruct (FindAndSet_free w) as (s & Hfind & Hs & Hcount).
    { unfold Bitmap.NumClear in *. lia. }
    set (w1 := mkWorld
                 (with_IndirectSectors (hdr w)
                    (zinsert i s (IndirectSectors (hdr w))))
                 (Bitmap.Mark (freeMap w) s) (disk w) (clearLog w)).
    assert (Hset : set_IndirectSectors i s
                     (mkWorld (hdr w) (Bitmap.Mark (freeMap w) s) (disk w)
                        (clearLog w)) = Ok tt w1).
    { unfold set_IndirectSectors, bind, get_hdr, put_hdr. simpl.
      by rewrite Hin. }
    assert (Hget : get_IndirectSectors i w1 = Ok s w1).
    { unfold get_IndirectSectors, bind, get_hdr, read_at. simpl.
      by rewrite zlookup_zinsert. }
    destruct (Allocate_block_short (Z.to_nat NumSectorForBlock) w1)
      as [w' Hw'].
    { simpl. lia. }
    exists w'. unfold Allocate_indirect.
    rewrite (bind_step _ _ _ _ _ Hfind). cbv beta.
    rewrite (bind_step _ _ _ _ _ Hset). cbv beta.
    rewrite (bind_step _ _ _ _ _ Hget). cbv beta.
    apply Z.leb_le in Hs. rewrite Hs.
    rewrite (bind_step (ASSERT true) _ _ tt _ eq_refl). cbv beta.
    unfold bind. by rewrite Hw'.
Qed.

(** A loop whose body either keeps the invariant or stops for the
    reason [r]. *)
Lemma for_from_stops (P : nat → World → Prop) body count r :
  ∀ from w,
    P O w →
    (∀ j w1, (j < count)%nat → P j w1 →
             (∃ w2, body (from + Z.of_nat j) w1 = Ok tt w2 ∧ P (S j) w2)
             ∨ (∃ w2, body (from + Z.of_nat j) w1 = Stop r w2)) →
    (∃ w', for_from from count body w = Ok tt w' ∧ P count w')
    ∨ (∃ w', for_from from count body w = Stop r w').
Proof using Type.
  clear SectorSize_pos NumSectorForBlock_pos.
  revert P. induction count as [|c IH]; intros P from w H0 Hstep.
  - left. by exists w.
  - destruct (Hstep O w) as [(w1 & Hb & HP1)|(w1 & Hb)]; [lia | done | |];
      rewrite Z.add_0_r in Hb.
    + destruct (IH (λ j, P (S j)) (from + 1) w1 HP1)
        as [(w' & Hrun & HP)|(w' & Hrun)].
      * intros j wa Hj HPa.
        destruct (Hstep (S j) wa) as [(wb & Hbody & HPb)|(wb & Hbody)];
          [lia | done | left | right]; exists wb;
          [split; [| done] |]; rewrite <- Hbody; f_equal; lia.
      * left. exists w'. split; [| done]. simpl.
        by rewrite (bind_step _ _ _ _ _ Hb).
      * right. exists w'. simpl. by rewrite (bind_step _ _ _ _ _ Hb).
    + right. exists w1. simpl. unfold bind. by rewrite Hb.
Qed.

Lemma Allocate_short fileSize w :
  let h := sized (hdr w) fileSize in
  let nd := Z.of_nat (Z.to_nat (numDirectSectors h)) in
  let ni := Z.of_nat (Z.to_nat (numIndirectSectors h)) in
  nd ≤ Z.of_nat (length (DirectSectors (hdr w))) →
  ni ≤ Z.of_nat (length (IndirectSectors (hdr w))) →
  numSectors h ≤ Bitmap.NumClear (freeMap w) →
  Bitmap.NumClear (freeMap w)
    < nd + ni * (1 + Z.of_nat (Z.to_nat NumSectorForBlock)) →
  ∃ w', Allocate fileSize w = Stop AssertFailed w'.
Proof using Type.
  clear SectorSize_pos NumSectorForBlock_pos.
  intros h nd ni Hnd Hni Hcheck Hfree.
  set (w0 := mkWorld h (freeMap w) (disk w) (clearLog w)).
  set (B := 1 + Z.of_nat (Z.to_nat NumSectorForBlock)) in *.
  rewrite Allocate_unfold by done. fold h w0. unfold for_lt.
  destruct (for_from_stops
              (λ j w1,
                 length (DirectSectors (hdr w1))
                 = length (DirectSectors (hdr w))
                 ∧ IndirectSectors (hdr w1) = IndirectSectors (hdr w)
                 ∧ numIndirectSectors (hdr w1) = numIndirectSectors h
                 ∧ Bitmap.NumClear (freeMap w1)
                   = Bitmap.NumClear (freeMap w) - Z.of_nat j)
              Allocate_direct (Z.to_nat (numDirectSectors h)) AssertFailed
              0 w0)
    as [(w1 & Hdirect & Hl1 & Hi1 & Hn1 & Hc1)|(w1 & Hdirect)].
  { simpl. split_and!; [done | done | done | lia]. }
  { intros j wa Hj (Hla & Hia & Hna & Hca).
    assert (Hin : in_bounds (DirectSectors (hdr wa)) (0 + Z.of_nat j) = true)
      by (apply bool_decide_eq_true; subst nd; lia).
    destruct (decide (Bitmap.NumClear (freeMap wa) = 0)) as [H0|Hpos].
    - right. by apply Allocate_direct_short.
    - left.
      destruct (Allocate_direct_total (0 + Z.of_nat j) wa)
        as (wb & Hb & Hlb & Hib & Hcb); [| done |].
      { unfold Bitmap.NumClear in *. lia. }
      exists wb. split; [done |].
      split_and!; [congruence | congruence | | lia].
      apply Allocate_direct_Ok in Hb as (s & _ & _ & ->). simpl. done. }
  2: { exists w1. unfold bind. by rewrite Hdirect. }
  rewrite (bind_step _ _ _ _ _ Hdirect). cbv beta.
  rewrite (bind_step get_hdr _ w1 (hdr w1) w1 eq_refl). cbv beta.
  rewrite Hn1.
  destruct (for_from_stops
              (λ j w2,
                 length (IndirectSectors (hdr w2))
                 = length (IndirectSectors (hdr w))
                 ∧ Bitmap.NumClear (freeMap w2)
                   = Bitmap.NumClear (freeMap w1) - Z.of_nat j * B)
              Allocate_indirect (Z.to_nat (numIndirectSectors h))
              AssertFailed 0 w1)
    as [(w2 & Hindirect & Hl2 & Hc2)|(w2 & Hindirect)].
  { split; [by rewrite Hi1 | lia]. }
  { intros j wa Hj (Hla & Hca).
    assert (Hin : in_bounds (IndirectSectors (hdr wa)) (0 + Z.of_nat j)
                  = true)
      by (apply bool_decide_eq_true; subst ni; lia).
    destruct (Z.lt_ge_cases (Bitmap.NumClear (freeMap wa)) B) as [Hlt|Hge].
    - right. by apply Allocate_indirect_short.
    - left.
      destruct (Allocate_indirect_total (0 + Z.of_nat j) wa)
        as (wb & Hb & Hlb & Hcb); [done | done |].
      exists wb. split; [done |]. fold B in Hcb. split; [congruence | lia]. }
  - exfalso. unfold Bitmap.NumClear in Hc2 at 1. subst nd ni. nia.
  - exists w2. unfold bind. by rewrite Hindirect.
Qed.

(** X4: for a header whose arrays hold the entries the file needs,
    [Allocate] returns false when the free sectors are fewer than
    [numSectors]; returns true when they also suffice for the direct
    sectors, the indirection blocks and all the entries of the blocks; and
    otherwise, the check passed, stops at a failed [ASSERT]. *)
Theorem Allocate_outcomes fileSize w :
  let ns := divRoundUp fileSize SectorSize in
  let nd := Z.max 0 (Z.min ns NumDirect) in
  let ni := Z.max 0 (if NumDirect <? ns
                     then divRoundUp (ns - NumDirect) NumSectorForBlock
                     else 0) in
  let need := nd + ni * (1 + Z.max 0 NumSectorForBlock) in
  let free := Bitmap.NumClear (freeMap w) in
  nd ≤ Z.of_nat (length (DirectSectors (hdr w))) →
  ni ≤ Z.of_nat (length (IndirectSectors (hdr w))) →
  (free < ns → ∃ w', Allocate fileSize w = Ok false w')
  ∧ (ns ≤ free → need ≤ free → ∃ w', Allocate fileSize w = Ok true w')
  ∧ (ns ≤ free → free < need →
     ∃ w', Allocate fileSize w = Stop AssertFailed w').
Proof using Type.
  clear SectorSize_pos NumSectorForBlock_pos.
  intros ns nd ni need free Hnd Hni.
  assert (End : Z.of_nat (Z.to_nat (numDirectSectors
                                       (sized (hdr w) fileSize))) = nd).
  { unfold sized. simpl. fold ns. subst nd.
    destruct (NumDirect <? ns) eqn:E;
      [apply Z.ltb_lt in E | apply Z.ltb_ge in E]; lia. }
  assert (Eni : Z.of_nat (Z.to_nat (numIndirectSectors
                                       (sized (hdr w) fileSize))) = ni).
  { unfold sized. simpl. fold ns. subst ni. lia. }
  assert (EB : Z.of_nat (Z.to_nat NumSectorForBlock)
               = Z.max 0 NumSectorForBlock) by lia.
  split; [| split].
  - intros Hlt. eexists. by apply Allocate_false.
  - intros Hns Hneed. apply Allocate_succeeds; rewrite ?End, ?Eni, ?EB; done.
  - intros Hns Hneed. apply Allocate_short; rewrite ?End, ?Eni, ?EB; done.
Qed.

(** ** More on [Deallocate] *)










(** X6: after a successful [Allocate] of a file of at least one byte,
    [Deallocate] returns, and a second [Deallocate] on the same header
    stops at its first [ASSERT] with nothing cleared. *)
Theorem Deallocate_twice fileSize w w1 :
  0 < NumDirect →
  0 < fileSize →
  Allocate fileSize w = Ok true w1 →
  ∃ w2, Deallocate w1 = Ok tt w2
        ∧ Deallocate w2 = Stop AssertFailed w2.
Proof.
  intros Hnd Hsize Hrun. apply Allocate_true in Hrun as (ss & bl & Hal).
  pose proof (Deallocate_allocated _ _ _ _ _ Hal) as Hde.
  destruct Hal as [_ Hld _ _ _ Hh Hfresh _ _ _ _].
  assert (Hmap : clear_all (freeMap w1) (ss ++ cleared_order bl)
                 = freeMap w).
  { eapply clear_all_fresh_run; [done |]. intros z.
    rewrite !elem_of_app. by rewrite elem_of_cleared_order. }
  rewrite Hmap in Hde. eexists. split; [exact Hde |].
  pose proof (divRoundUp_pos fileSize SectorSize SectorSize_pos Hsize) as Hns.
  assert (Hpos : 0 < numDirectSectors (sized (hdr w) fileSize)).
  { unfold sized. simpl.
    by destruct (NumDirect <? divRoundUp fileSize SectorSize). }
  destruct ss as [|s0 ss]; [change (length (@nil Z)) with O in Hld; lia |].
  assert (Hclear : is_clear (freeMap w) s0).
  { eapply fresh_run_clear; [done |]. left. }
  match goal with
  | |- Deallocate ?x = _ => set (w2 := x)
  end.
  assert (Hstop : Deallocate_direct 0 w2 = Stop AssertFailed w2).
  { unfold Deallocate_direct, get_DirectSectors, get_hdr, bind, read_at, Test.
    replace (zlookup (DirectSectors (hdr w2)) 0) with (Some s0)
      by (subst w2; simpl; by rewrite Hh).
    unfold ret. cbv beta iota.
    replace (Bitmap.Test (freeMap w2) s0) with false; [done |].
    subst w2. unfold Bitmap.Test. simpl.
    unfold is_clear in Hclear. by rewrite Hclear. }
  assert (Hn : Z.to_nat (numDirectSectors (hdr w2)) = S (length ss)).
  { subst w2. simpl. rewrite Hh. simpl in *. by rewrite <- Hld. }
  unfold Deallocate, for_lt, bind at 1, get_hdr. rewrite Hn. simpl.
  unfold bind at 1 2. by rewrite Hstop.
Qed.

(** ** [WriteBack] and [FetchFrom] *)

Lemma FetchFrom_run sector w :
  Z.of_nat (length (IndirectSectors (hdr w))) = NumIndirect →
  FetchFrom sector w
  = Ok tt
      (mkWorld
         (decode (header_of_image (length (DirectSectors (hdr w)))
                    (overlay (disk w sector) (header_image (hdr w)))))
         (freeMap w) (disk w) (clearLog w)).
Proof.
  intros Hlen.
  set (raw := header_of_image (length (DirectSectors (hdr w)))
                (overlay (disk w sector) (header_image (hdr w)))).
  assert (Hraw : Z.of_nat (length (IndirectSectors raw)) = NumIndirect).
  { subst raw. unfold header_of_image. simpl.
    rewrite length_drop, overlay_length. rewrite <- Hlen.
    unfold header_image. simpl. rewrite length_app. lia. }
  pose proof (before_sentinel_bounds (IndirectSectors raw)) as Hb.
  unfold FetchFrom.
  remember (S (Z.to_nat NumIndirect)) as fuel eqn:Hfuel.
  unfold bind, ReadSector, get_hdr, put_hdr, set_numIndirectSectors.
  simpl. fold raw.
  rewrite FetchFrom_scan_Ok; simpl; [| done | lia | lia].
  unfold set_numDirectSectors, bind, get_hdr, put_hdr, decode. simpl.
  change (Z.to_nat 0) with O. rewrite drop_0, !Z.add_0_l.
  by destruct (before_sentinel _ =? 0).
Qed.

Lemma header_image_length h :
  length (header_image h)
  = (4 + length (DirectSectors h) + length (IndirectSectors h))%nat.
Proof. unfold header_image. simpl. rewrite length_app. lia. Qed.

Lemma header_of_image_image h :
  header_of_image (length (DirectSectors h)) (header_image h) = h.
Proof.
  destruct h as [nb ns nd ni ds is_]. unfold header_of_image, header_image.
  simpl. by rewrite drop_0, take_app_length, drop_app_length.
Qed.

Lemma overlay_same_size ws img :
  length ws = length img → overlay ws img = ws.
Proof.
  intros Hlen. rewrite overlay_covered by lia.
  rewrite <- Hlen. apply firstn_all.
Qed.

Lemma decode_fixed h : decode h = h ↔ canonical h.
Proof.
  unfold decode, canonical. destruct h as [nb ns nd ni ds is_]. simpl. split.
  - intros [= Hd Hi]. rewrite Hi in Hd. by split.
  - intros [-> ->]. done.
Qed.

(** X7: [WriteBack] changes the given sector only, and [FetchFrom] of that
    sector into a header object of the same array sizes gives the bytes,
    the sector count and both arrays back; the whole header comes back
    exactly when its two counts are those the scan for -1 computes. *)
Theorem WriteBack_FetchFrom_canonical sector w h' :
  Z.of_nat (length (IndirectSectors (hdr w))) = NumIndirect →
  length (DirectSectors h') = length (DirectSectors (hdr w)) →
  length (IndirectSectors h') = length (IndirectSectors (hdr w)) →
  ∃ w1 h1,
    WriteBack sector w = Ok tt w1
    ∧ hdr w1 = hdr w
    ∧ freeMap w1 = freeMap w
    ∧ (∀ x, x ≠ sector → disk w1 x = disk w x)
    ∧ FetchFrom sector (mkWorld h' (freeMap w1) (disk w1) (clearLog w1))
      = Ok tt (mkWorld h1 (freeMap w1) (disk w1) (clearLog w1))
    ∧ numBytes h1 = numBytes (hdr w)
    ∧ numSectors h1 = numSectors (hdr w)
    ∧ DirectSectors h1 = DirectSectors (hdr w)
    ∧ IndirectSectors h1 = IndirectSectors (hdr w)
    ∧ (h1 = hdr w ↔ canonical (hdr w)).
Proof.
  intros Hlen Hd Hi.
  eexists _, (decode (hdr w)). split; [reflexivity |]. simpl.
  split; [done |]. split; [done |].
  split; [intros x Hx; by rewrite decide_False |].
  split.
  - rewrite FetchFrom_run by (simpl; lia). simpl.
    rewrite decide_True by done.
    rewrite overlay_same_size
      by (rewrite !header_image_length; lia).
    by rewrite Hd, header_of_image_image.
  - split_and!; try done. apply decode_fixed.
Qed.

Lemma before_sentinel_app l k :
  Forall (λ v, v ≠ -1) l →
  before_sentinel (l ++ replicate k (-1)) = Z.of_nat (length l).
Proof.
  induction l as [|v l IH]; intros Hall; simpl.
  - by destruct k.
  - apply Forall_cons in Hall as [Hv Hall].
    apply Z.eqb_neq in Hv. rewrite Hv, (IH Hall). lia.
Qed.

(** The header of a successful [Allocate] on a header whose indirect
    entries were all -1 has the counts [FetchFrom] computes. *)
Lemma Allocate_canonical fileSize w w1 :
  IndirectSectors (hdr w) = replicate (length (IndirectSectors (hdr w))) (-1) →
  Allocate fileSize w = Ok true w1 →
  canonical (hdr w1).
Proof.
  intros Hfresh Hrun. apply Allocate_true in Hrun as (ss & bl & Hal).
  destruct Hal as [_ _ Hli _ Hfit Hh Hrun _ _ _ _].
  assert (Hne : Forall (λ v, v ≠ -1) (map fst bl)).
  { apply Forall_forall. intros v Hv.
    assert (Hc : is_clear (freeMap w) v).
    { eapply fresh_run_clear; [done |]. apply elem_of_app. right.
      apply elem_of_taken_order.
      apply list_elem_of_fmap in Hv as (sb & -> & Hsb). exists sb. auto. }
    apply zlookup_lt in Hc. lia. }
  assert (Hscan : before_sentinel (IndirectSectors (hdr w1))
                  = Z.of_nat (length bl)).
  { rewrite Hh. simpl. rewrite Hfresh, drop_replicate.
    rewrite before_sentinel_app by done. by rewrite length_map. }
  unfold canonical. rewrite Hscan, Hh. simpl.
  unfold sized in Hli. simpl in Hli.
  destruct (NumDirect <? divRoundUp fileSize SectorSize) eqn:E.
  - apply Z.ltb_lt in E.
    pose proof (divRoundUp_pos (divRoundUp fileSize SectorSize - NumDirect)
                  NumSectorForBlock NumSectorForBlock_pos ltac:(lia)) as Hp.
    split; [lia |].
    by destruct (divRoundUp _ NumSectorForBlock =? 0) eqn:E0;
      [apply Z.eqb_eq in E0; lia |].
  - split; [| done]. rewrite Hli. done.
Qed.

(** X8: the header a successful [Allocate] has built for a file that
    fits it (no more than [NumIndirect] indirect entries), starting from
    indirect entries that were all -1, survives [WriteBack] and
    [FetchFrom]: fetched into any header object of the same array sizes,
    it is the header that was written, counts included. *)
Theorem Allocate_WriteBack_FetchFrom fileSize sector w w1 h' :
  Z.of_nat (length (IndirectSectors (hdr w))) = NumIndirect →
  IndirectSectors (hdr w) = replicate (Z.to_nat NumIndirect) (-1) →
  length (DirectSectors h') = length (DirectSectors (hdr w)) →
  length (IndirectSectors h') = length (IndirectSectors (hdr w)) →
  Allocate fileSize w = Ok true w1 →
  numIndirectSectors (hdr w1) ≤ NumIndirect →
  ∃ w2, WriteBack sector w1 = Ok tt w2
        ∧ hdr w2 = hdr w1
        ∧ FetchFrom sector (mkWorld h' (freeMap w2) (disk w2) (clearLog w2))
          = Ok tt w2.
Proof.
  intros Hlen Hfresh Hd Hi Hrun _.
  assert (Hcan : canonical (hdr w1)).
  { eapply Allocate_canonical; [| done].
    rewrite Hfresh at 1. f_equal. lia. }
  apply Allocate_true in Hrun as (ss & bl & Hal).
  destruct Hal as [_ _ _ Hfd Hfi Hh _ _ _ _ _].
  assert (Hd1 : length (DirectSectors (hdr w1))
                = length (DirectSectors (hdr w))).
  { rewrite Hh. simpl. rewrite length_app, length_drop. lia. }
  assert (Hi1 : length (IndirectSectors (hdr w1))
                = length (IndirectSectors (hdr w))).
  { rewrite Hh. simpl. rewrite length_app, length_map, length_drop. lia. }
  eexists. split; [reflexivity |]. simpl. split; [done |].
  rewrite FetchFrom_run by (simpl; lia). simpl.
  rewrite decide_True by done.
  rewrite overlay_same_size by (rewrite !header_image_length; lia).
  rewrite Hd, <- Hd1, header_of_image_image.
  apply decode_fixed in Hcan. by rewrite Hcan.
Qed.

(** ** [ByteToSector] over the whole file *)

Lemma lookup_concat_uniform (bs : list (list Z)) n :
  Forall (λ b, length b = n) bs →
  ∀ k r b x, bs !! k = Some b → b !! r = Some x →
             concat bs !! (k * n + r)%nat = Some x.
Proof.
  induction bs as [|b0 bs IH]; intros Hall k r b x Hk Hr;
    [by rewrite lookup_nil in Hk |].
  apply Forall_cons in Hall as [Hb0 Hall]. destruct k as [|k]; simpl in *.
  - injection Hk as ->. by apply lookup_app_l_Some.
  - rewrite lookup_app_r by lia.
    replace (n + k * n + r - length b0)%nat with (k * n + r)%nat by lia.
    by eapply IH.
Qed.

Lemma taken_order_split bl :
  taken_order bl ≡ₚ map fst bl ++ concat (map snd bl).
Proof.
  induction bl as [|[s b] bl IH]; [done |].
  unfold taken_order in *. simpl. rewrite IH.
  by rewrite (Permutation_app_swap_app b).
Qed.

Lemma file_sectors_NoDup ss bl :
  NoDup (ss ++ taken_order bl) →
  NoDup (file_sectors ss bl)
  ∧ ∀ x, x ∈ map fst bl → x ∉ file_sectors ss bl.
Proof.
  rewrite taken_order_split.
  rewrite (Permutation_app_swap_app ss).
  fold (file_sectors ss bl).
  intros (_ & Hdisj & Hnd)%NoDup_app. done.
Qed.

(** After a successful [Allocate], the byte at [offset] is in the data
    sector number [offset / SectorSize] of the file. *)
Lemma ByteToSector_file_sectors fileSize w w' ss bl offset :
  0 ≤ NumDirect →
  allocated w fileSize w' ss bl →
  0 ≤ offset < fileSize →
  ∃ sec, file_sectors ss bl !! Z.to_nat (Z.quot offset SectorSize) = Some sec
         ∧ ByteToSector offset w' = Ok sec w'.
Proof.
  intros HND Hal Hoff.
  destruct Hal as [_ Hld Hli _ _ Hh _ Hsz Hblocks _ _].
  assert (Hnd : numDirectSectors (hdr w')
                = numDirectSectors (sized (hdr w) fileSize))
    by (by rewrite Hh).
  assert (Hds : DirectSectors (hdr w')
                = ss ++ drop (length ss) (DirectSectors (hdr w)))
    by (by rewrite Hh).
  assert (His : IndirectSectors (hdr w')
                = map fst bl ++ drop (length bl) (IndirectSectors (hdr w)))
    by (by rewrite Hh).
  set (ns := divRoundUp fileSize SectorSize) in *.
  set (nd := numDirectSectors (sized (hdr w) fileSize)) in *.
  set (ni := numIndirectSectors (sized (hdr w) fileSize)) in *.
  pose proof (divRoundUp_ge fileSize SectorSize SectorSize_pos) as Hceil.
  fold ns in Hceil.
  destruct (Z.lt_ge_cases offset (SectorSize * nd)) as [Hlt|Hge].
  - assert (Hq : 0 ≤ Z.quot offset SectorSize < nd).
    { rewrite Z.quot_div_nonneg by lia. split.
      - apply Z.div_pos; lia.
      - apply Z.div_lt_upper_bound; lia. }
    destruct (lookup_lt_is_Some_2 ss (Z.to_nat (Z.quot offset SectorSize)))
      as [sec Hsec]; [lia |].
    exists sec. split.
    + unfold file_sectors. by apply lookup_app_l_Some.
    + apply ByteToSector_direct; [by rewrite Hnd |].
      unfold zlookup. rewrite decide_True by lia. rewrite Hds.
      by apply lookup_app_l_Some.
  - assert (Hcase : (NumDirect <? ns) = true).
    { destruct (NumDirect <? ns) eqn:E; [done |].
      subst nd. unfold sized in Hge. simpl in Hge. fold ns in Hge.
      rewrite E in Hge. nia. }
    assert (Hnd' : nd = NumDirect).
    { subst nd. unfold sized. simpl. fold ns. by rewrite Hcase. }
    assert (Hni' : ni = divRoundUp (ns - NumDirect) NumSectorForBlock).
    { subst ni. unfold sized. simpl. fold ns. by rewrite Hcase. }
    pose proof (divRoundUp_ge (ns - NumDirect) NumSectorForBlock NumSectorForBlock_pos)
      as Hceil2.
    rewrite <- Hni' in Hceil2.
    set (rest := offset - SectorSize * nd) in *.
    set (q := Z.quot rest SectorSize).
    set (k := Z.quot rest (SectorSize * NumSectorForBlock)).
    set (r := Z.rem q NumSectorForBlock).
    assert (Hrest : 0 ≤ rest < SectorSize * (NumSectorForBlock * ni))
      by (subst rest; nia).
    assert (Hq0 : 0 ≤ q) by (apply Z.quot_pos; lia).
    assert (Hkq : k = Z.quot q NumSectorForBlock).
    { subst k q. symmetry. apply Z.quot_quot; lia. }
    assert (Hqr : q = NumSectorForBlock * k + r).
    { rewrite Hkq. apply Z.quot_rem'. }
    assert (Hr : 0 ≤ r < NumSectorForBlock) by (apply Z.rem_bound_pos; lia).
    assert (Hk : 0 ≤ k < ni).
    { subst k. rewrite Z.quot_div_nonneg by nia. split.
      - apply Z.div_pos; nia.
      - apply Z.div_lt_upper_bound; nia. }
    assert (Hidx : Z.quot offset SectorSize = nd + q).
    { subst q rest. rewrite !Z.quot_div_nonneg by lia.
      replace offset with (offset - SectorSize * nd + nd * SectorSize) at 1 by lia.
      rewrite Z.div_add by lia. lia. }
    destruct (lookup_lt_is_Some_2 bl (Z.to_nat k)) as [[s b] Hsb]; [lia |].
    assert (Hin : (s, b) ∈ bl) by (by eapply list_elem_of_lookup_2).
    pose proof (Hblocks _ Hin) as Hdisk. simpl in Hdisk.
    rewrite Forall_forall in Hsz.
    pose proof (Hsz _ Hin) as Hlen. simpl in Hlen.
    destruct (lookup_lt_is_Some_2 b (Z.to_nat r)) as [sec Hsec]; [lia |].
    exists sec. split.
    + unfold file_sectors. rewrite lookup_app_r by lia.
      replace (Z.to_nat (Z.quot offset SectorSize) - length ss)%nat
        with (Z.to_nat k * Z.to_nat NumSectorForBlock + Z.to_nat r)%nat.
      * apply (lookup_concat_uniform _ (Z.to_nat NumSectorForBlock)) with (b := b);
          [| by rewrite list_lookup_fmap, Hsb | done].
        apply Forall_forall. intros b' Hb'.
        apply list_elem_of_fmap in Hb' as (sb & -> & Hsb').
        by apply Hsz.
      * rewrite Hidx, Hld, Hqr.
        rewrite <- Z2Nat.inj_mul, <- Z2Nat.inj_add, <- Z2Nat.inj_sub by nia.
        f_equal. lia.
    + eapply ByteToSector_indirect; rewrite ?Hnd.
      * done.
      * fold rest k. unfold zlookup. rewrite decide_True by lia.
        rewrite His. apply lookup_app_l_Some.
        by rewrite list_lookup_fmap, Hsb.
      * fold rest q r. cbn [fst]. rewrite Hdisk, <- Hlen, firstn_all.
        unfold zlookup. by rewrite decide_True by lia.
Qed.

(** X9: after a successful [Allocate], two offsets inside the file are
    translated to the same sector exactly when they lie in the same
    [SectorSize] bytes of the file, and never to the sector of an
    indirection block. *)
Theorem ByteToSector_injective fileSize w w' o1 o2 :
  0 ≤ NumDirect →
  Allocate fileSize w = Ok true w' →
  0 ≤ o1 < numBytes (hdr w') →
  0 ≤ o2 < numBytes (hdr w') →
  ∃ s1 s2,
    ByteToSector o1 w' = Ok s1 w'
    ∧ ByteToSector o2 w' = Ok s2 w'
    ∧ (s1 = s2 ↔ Z.quot o1 SectorSize = Z.quot o2 SectorSize)
    ∧ s1 ∉ take (Z.to_nat (numIndirectSectors (hdr w')))
             (IndirectSectors (hdr w')).
Proof.
  intros HND Hrun Ho1 Ho2. apply Allocate_true in Hrun as (ss & bl & Hal).
  assert (Hnb : numBytes (hdr w') = fileSize)
    by (destruct Hal as [_ _ _ _ _ Hh _ _ _ _ _]; by rewrite Hh).
  rewrite Hnb in Ho1, Ho2.
  destruct (ByteToSector_file_sectors _ _ _ _ _ o1 HND Hal Ho1)
    as (s1 & Hl1 & Hb1).
  destruct (ByteToSector_file_sectors _ _ _ _ _ o2 HND Hal Ho2)
    as (s2 & Hl2 & Hb2).
  destruct Hal as [_ _ Hli _ _ Hh Hfresh _ _ _ _].
  destruct (file_sectors_NoDup ss bl (fresh_run_NoDup _ _ _ Hfresh))
    as [Hnd Hdisj].
  exists s1, s2. split; [done |]. split; [done |]. split.
  - split.
    + intros ->.
      pose proof (NoDup_lookup _ _ _ _ Hnd Hl1 Hl2) as Heq.
      assert (0 ≤ Z.quot o1 SectorSize) by (apply Z.quot_pos; lia).
      assert (0 ≤ Z.quot o2 SectorSize) by (apply Z.quot_pos; lia).
      lia.
    + intros Heq. rewrite Heq in Hl1. congruence.
  - assert (Hni : numIndirectSectors (hdr w')
                  = numIndirectSectors (sized (hdr w) fileSize))
      by (by rewrite Hh).
    assert (His : IndirectSectors (hdr w')
                  = map fst bl ++ drop (length bl) (IndirectSectors (hdr w)))
      by (by rewrite Hh).
    rewrite Hni, His, <- Hli.
    rewrite <- (length_map fst bl) at 1. rewrite take_app_length.
    intros Hin. apply (Hdisj _ Hin).
    by eapply list_elem_of_lookup_2.
Qed.

(** ** Directory: the key of a name *)

Lemma code_inj c c' : code c = code c' → c = c'.
Proof.
  unfold code. intros H%Nat2Z.inj.
  rewrite <- (ascii_nat_embedding c), <- (ascii_nat_embedding c').
  by rewrite H.
Qed.

Lemma strncmp_0_iff n :
  ∀ a b, strncmp a b n = 0 ↔ cprefix a n = cprefix b n.
Proof.
  induction n as [|n IH]; intros a b; simpl; [done |].
  destruct (code (head_char a) =? code (head_char b)) eqn:E; simpl.
  - apply Z.eqb_eq in E. rewrite <- E.
    destruct (code (head_char a) =? 0) eqn:E0; [done |].
    apply code_inj in E. rewrite IH, E. split; [by intros -> |].
    by intros [= ->].
  - apply Z.eqb_neq in E. split; [lia |].
    destruct (code (head_char a) =? 0) eqn:Ea;
      destruct (code (head_char b) =? 0) eqn:Eb; try discriminate.
    + apply Z.eqb_eq in Ea, Eb. congruence.
    + intros [= Hc _]. by rewrite Hc in E.
Qed.

Lemma cprefix_strncpy n :
  ∀ dst src, cprefix (strncpy dst src n) n = cprefix src n.
Proof.
  induction n as [|n IH]; intros dst src; simpl; [done |].
  destruct (code (head_char src) =? 0) eqn:E; [done |].
  by rewrite IH.
Qed.

Lemma cprefix_take n : ∀ a b, take n a = take n b → cprefix a n = cprefix b n.
Proof.
  induction n as [|n IH]; intros a b Ht; simpl; [done |].
  destruct a as [|x a], b as [|y b]; simpl in *; try done.
  injection Ht as -> Ht. by rewrite (IH _ _ Ht).
Qed.

Lemma name_matches_key e nm :
  name_matches e nm = true ↔ inUse e = true ∧ slot_key e = key nm.
Proof.
  unfold name_matches, slot_key, key.
  rewrite andb_true_iff, Z.eqb_eq. by rewrite strncmp_0_iff.
Qed.

Lemma claim_slot_key e nm s b : slot_key (claim_slot e nm s b) = key nm.
Proof. unfold slot_key, key, claim_slot. simpl. apply cprefix_strncpy. Qed.

(** [FindIndex] sees of two tables, and of two names, only which slots
    match. *)
Lemma FindIndex_from_ext nm nm' :
  ∀ t t' i,
    Forall2 (λ e e', name_matches e nm = name_matches e' nm') t t' →
    FindIndex_from i t nm = FindIndex_from i t' nm'.
Proof.
  induction t as [|e t IH]; intros t' i Hall.
  - by apply Forall2_nil_inv_l in Hall as ->.
  - apply Forall2_cons_inv_l in Hall as (e' & t'' & He & Hall & ->).
    simpl. rewrite He. destruct (name_matches e' nm'); [done |].
    by apply IH.
Qed.

Lemma FindIndex_ext d d' nm nm' :
  length (table d) = length (table d') →
  (∀ i e e', table d !! i = Some e → table d' !! i = Some e' →
             name_matches e nm = name_matches e' nm') →
  FindIndex d nm = FindIndex d' nm'.
Proof.
  intros Hlen Hall. apply FindIndex_from_ext.
  apply Forall2_same_length_lookup. split; [done |]. apply Hall.
Qed.

(** X10: [FindIndex] returns -1 when no slot in use holds the key of the
    name, and otherwise the lowest index of such a slot, which is inside
    the table and whose sector [Find] returns. *)
Theorem FindIndex_lowest_match d nm :
  (FindIndex d nm = -1
   ∧ Find d nm = -1
   ∧ ∀ i e, table d !! i = Some e → inUse e = true → slot_key e ≠ key nm)
  ∨ (∃ p e,
       FindIndex d nm = Z.of_nat p
       ∧ Z.of_nat p < tableSize d
       ∧ table d !! p = Some e
       ∧ inUse e = true
       ∧ slot_key e = key nm
       ∧ Find d nm = sector e
       ∧ ∀ q e', (q < p)%nat → table d !! q = Some e' → inUse e' = true →
                 slot_key e' ≠ key nm).
Proof.
  destruct (decide (FindIndex d nm = -1)) as [Hk|Hk].
  - left. split; [done |]. split; [by apply Find_absent |].
    intros i e Hi Hu Hkey.
    pose proof (FindIndex_absent_inv _ _ Hk _ _ Hi) as Hm.
    assert (name_matches e nm = true) by (by apply name_matches_key).
    congruence.
  - right.
    destruct (FindIndex_present _ _ Hk) as (p & e & Hp & He & Hm & Hq).
    apply name_matches_key in Hm as [Hu Hkey].
    exists p, e. split_and!; try done.
    + unfold tableSize. apply lookup_lt_Some in He. lia.
    + by eapply Find_at.
    + intros q e' Hlt He' Hu' Hkey'.
      assert (Hm' : name_matches e' nm = true)
        by (by apply name_matches_key).
      rewrite (Hq _ _ Hlt He') in Hm'. discriminate.
Qed.

(** X11: a new directory of a size that is not negative has that many
    slots and holds no name: [FindIndex] and [Find] return -1 and
    [Remove] returns false.  [Add] returns false when the size is 0, and
    otherwise fills slot 0. *)
Theorem Directory_new_empty size nm s b :
  0 ≤ size →
  let d := Directory_new size in
  tableSize d = size
  ∧ FindIndex d nm = -1
  ∧ Find d nm = -1
  ∧ Remove d nm = (false, d)
  ∧ (size = 0 → Add d nm s b = (false, d))
  ∧ (0 < size →
     ∃ d', Add d nm s b = (true, d')
           ∧ table d' !! O = Some (claim_slot DirectoryEntry_new nm s b)
           ∧ Find d' nm = s).
Proof.
  intros Hsize0 d.
  assert (Hnew : ∀ j e0, table d !! j = Some e0 → e0 = DirectoryEntry_new).
  { intros j e0 Hj. simpl in Hj. by apply lookup_replicate_1 in Hj as [-> _]. }
  assert (Hk : FindIndex d nm = -1).
  { apply FindIndex_absent. intros p e Hp. by rewrite (Hnew _ _ Hp). }
  split; [unfold tableSize; simpl; rewrite length_replicate; lia |].
  split; [done |]. split; [by apply Find_absent |].
  split; [unfold Remove; by rewrite Hk |].
  split.
  - intros Hsize. apply Add_full. intros p e Hp. simpl in Hp.
    replace (Z.to_nat size) with O in Hp by lia. done.
  - intros Hsize.
    assert (Ht : table d = DirectoryEntry_new
                           :: replicate (Z.to_nat (size - 1))
                                DirectoryEntry_new).
    { simpl. replace (Z.to_nat size) with (S (Z.to_nat (size - 1))) by lia.
      done. }
    eexists. split.
    + unfold Add. rewrite Hk, Ht. simpl. reflexivity.
    + split; [done |]. simpl.
      apply (Find_at _ _ O (claim_slot DirectoryEntry_new nm s b));
        [| done].
      apply (FindIndex_first _ _ O (claim_slot DirectoryEntry_new nm s b));
        [done | apply claim_slot_matches | intros; lia].
Qed.

Lemma Add_scan_lowest t nm s b t' :
  Add_scan t nm s b = Some t' →
  ∃ p e, t !! p = Some e ∧ inUse e = false
         ∧ (∀ q e', (q < p)%nat → t !! q = Some e' → inUse e' = true)
         ∧ t' = <[p := claim_slot e nm s b]> t.
Proof.
  revert t'. induction t as [|e t IH]; intros t'; simpl; [done |].
  destruct (inUse e) eqn:Eu; simpl.
  - destruct (Add_scan t nm s b) as [t0|]; simpl; [| done].
    intros [= <-]. destruct (IH t0 eq_refl) as (p & e' & Hp & Hu & Hq & ->).
    exists (S p), e'. split_and!; try done.
    intros [|q] e2 Hlt He2; simpl in He2; [congruence |].
    apply (Hq q); [lia | done].
  - intros [= <-]. exists O, e. split_and!; try done. intros; lia.
Qed.

(** X12: [Add] returns false, and changes nothing, when the key of the
    name is in the directory or no slot is free; otherwise it returns true
    and fills the lowest free slot with the sector, the directory flag and
    the key of the name, every other slot being as before. *)
Theorem Add_outcome d nm s b r d' :
  Add d nm s b = (r, d') →
  (r = false ∧ d' = d
   ∧ (FindIndex d nm ≠ -1
      ∨ ∀ p e, table d !! p = Some e → inUse e = true))
  ∨ (r = true ∧ FindIndex d nm = -1
     ∧ ∃ p e e',
         table d !! p = Some e ∧ inUse e = false
         ∧ (∀ q e0, (q < p)%nat → table d !! q = Some e0 → inUse e0 = true)
         ∧ table d' !! p = Some e'
         ∧ inUse e' = true ∧ sector e' = s ∧ isDirectory e' = b
         ∧ slot_key e' = key nm
         ∧ length (table d') = length (table d)
         ∧ ∀ q, q ≠ p → table d' !! q = table d !! q).
Proof.
  unfold Add. destruct (FindIndex d nm =? -1) eqn:Ef; simpl.
  - apply Z.eqb_eq in Ef.
    destruct (Add_scan (table d) nm s b) as [t'|] eqn:Es.
    + intros [= <- <-]. right. split; [done |]. split; [done |].
      destruct (Add_scan_lowest _ _ _ _ _ Es) as (p & e & Hp & Hu & Hq & ->).
      exists p, e, (claim_slot e nm s b). simpl.
      split_and!; try done.
      * apply list_lookup_insert_eq. by eapply lookup_lt_Some.
      * apply claim_slot_key.
      * apply length_insert.
      * intros q Hne. by apply list_lookup_insert_ne.
    + intros [= <- <-]. left. split; [done |]. split; [done |]. right.
      pose proof (Add_scan_spec (table d) nm s b) as Hscan.
      by rewrite Es in Hscan.
  - apply Z.eqb_neq in Ef. intros [= <- <-]. left. auto.
Qed.

(** X13: two names that agree in their first [FileNameMaxLen] characters
    are one name to the directory: [FindIndex], [Find] and [Remove] do the
    same for both, and [Add] of one fails when the other is present. *)
Theorem names_compared_by_prefix d nm nm' s b :
  take (Z.to_nat FileNameMaxLen) (list_ascii_of_string nm)
  = take (Z.to_nat FileNameMaxLen) (list_ascii_of_string nm') →
  FindIndex d nm = FindIndex d nm'
  ∧ Find d nm = Find d nm'
  ∧ Remove d nm = Remove d nm'
  ∧ (FindIndex d nm ≠ -1 → Add d nm' s b = (false, d)).
Proof.
  intros Ht. apply cprefix_take in Ht. fold (key nm) (key nm') in Ht.
  assert (Hk : FindIndex d nm = FindIndex d nm').
  { apply FindIndex_ext; [done |]. intros i e e' He He'.
    assert (e' = e) as -> by congruence.
    destruct (name_matches e nm) eqn:E1, (name_matches e nm') eqn:E2;
      try done.
    - apply name_matches_key in E1 as [Hu Hkey]. rewrite Ht in Hkey.
      assert (name_matches e nm' = true) by (by apply name_matches_key).
      congruence.
    - apply name_matches_key in E2 as [Hu Hkey]. rewrite <- Ht in Hkey.
      assert (name_matches e nm = true) by (by apply name_matches_key).
      congruence. }
  split; [done |].
  split; [unfold Find; by rewrite Hk |].
  split; [unfold Remove; by rewrite Hk |].
  intros Hpresent. unfold Add. rewrite <- Hk.
  by destruct (FindIndex d nm =? -1) eqn:E; [apply Z.eqb_eq in E |].
Qed.

(** ** Directory: other names, unique keys, the number of slots in use *)

Lemma no_match_other_key e nm nm' :
  name_matches e nm = true → key nm ≠ key nm' →
  name_matches e nm' = false.
Proof.
  intros [Hu Hk]%name_matches_key Hne.
  destruct (name_matches e nm') eqn:E; [| done].
  apply name_matches_key in E as [_ Hk']. congruence.
Qed.

Lemma Find_unchanged d d' nm :
  length (table d) = length (table d') →
  (∀ i e e', table d !! i = Some e → table d' !! i = Some e' →
             name_matches e nm = name_matches e' nm) →
  (∀ i e, table d !! i = Some e → name_matches e nm = true →
          table d' !! i = Some e) →
  Find d' nm = Find d nm.
Proof.
  intros Hlen Hsame Hkeep.
  pose proof (FindIndex_ext d d' nm nm Hlen Hsame) as Hk.
  destruct (decide (FindIndex d nm = -1)) as [Ha|Hp].
  - rewrite (Find_absent d nm Ha). apply Find_absent. congruence.
  - destruct (FindIndex_present _ _ Hp) as (p & e & Hi & He & Hm & _).
    rewrite (Find_at d nm p e Hi He).
    apply (Find_at d' nm p e); [congruence | by apply Hkeep].
Qed.

(** X14: [Add] and [Remove] of a name leave [Find] of every name with
    another key as it was. *)
Theorem Find_other_name d nm nm' s b :
  key nm ≠ key nm' →
  Find (snd (Add d nm s b)) nm' = Find d nm'
  ∧ Find (snd (Remove d nm)) nm' = Find d nm'.
Proof.
  intros Hne. split.
  - destruct (Add_cases d nm s b) as [[-> _]|(p & e & Hp & Hu & _ & ->)];
      [done |].
    simpl. apply Find_unchanged; simpl.
    + by rewrite length_insert.
    + intros i e1 e2 H1 H2. destruct (decide (i = p)) as [Hi|Hi]; [subst i |].
      * rewrite list_lookup_insert_eq in H2 by by eapply lookup_lt_Some.
        injection H2 as <-. assert (e1 = e) as -> by congruence.
        rewrite (no_match_other_key _ nm nm' (claim_slot_matches _ _ _ _) Hne).
        unfold name_matches. by rewrite Hu.
      * rewrite list_lookup_insert_ne in H2 by done. congruence.
    + intros i e1 H1 Hm. destruct (decide (i = p)) as [Hi|Hi]; [subst i |].
      * assert (e1 = e) as -> by congruence.
        unfold name_matches in Hm. by rewrite Hu in Hm.
      * by rewrite list_lookup_insert_ne.
  - destruct (Remove_cases d nm)
      as [[-> _]|(p & e & Hp & Hm & _ & _ & ->)]; [done |].
    simpl. apply Find_unchanged; simpl.
    + by rewrite length_alter.
    + intros i e1 e2 H1 H2. destruct (decide (i = p)) as [Hi|Hi]; [subst i |].
      * rewrite list_lookup_alter_eq, Hp in H2. injection H2 as <-.
        assert (e1 = e) as -> by congruence.
        by rewrite (no_match_other_key _ nm nm' Hm Hne).
      * rewrite list_lookup_alter_ne in H2 by done. congruence.
    + intros i e1 H1 Hm1. destruct (decide (i = p)) as [Hi|Hi]; [subst i |].
      * assert (e1 = e) as -> by congruence.
        rewrite (no_match_other_key _ nm nm' Hm Hne) in Hm1. discriminate.
      * by rewrite list_lookup_alter_ne.
Qed.

Lemma call_unique_keys d c : unique_keys d → unique_keys (snd (call d c)).
Proof.
  intros Hun. destruct c as [nm s b|nm]; simpl.
  - destruct (Add_cases d nm s b) as [[-> _]|(p & e & Hp & Hu & Hk & ->)];
      [done |].
    intros i j e1 e2 H1 H2 Hu1 Hu2 Hkey. simpl in H1, H2.
    assert (Hlt : (p < length (table d))%nat) by by eapply lookup_lt_Some.
    assert (Hold : ∀ q e0, q ≠ p →
              <[p:=claim_slot e nm s b]> (table d) !! q = Some e0 →
              inUse e0 = true → slot_key e0 ≠ key nm).
    { intros q e0 Hq H0 Hu0 Hk0.
      rewrite list_lookup_insert_ne in H0 by done.
      pose proof (FindIndex_absent_inv _ _ Hk _ _ H0) as Hm.
      assert (name_matches e0 nm = true) by (by apply name_matches_key).
      congruence. }
    destruct (decide (i = p)) as [Hi|Hi], (decide (j = p)) as [Hj|Hj];
      [congruence | subst i | subst j |].
    + rewrite list_lookup_insert_eq in H1 by done. injection H1 as <-.
      rewrite claim_slot_key in Hkey. by destruct (Hold j e2 Hj H2 Hu2).
    + rewrite list_lookup_insert_eq in H2 by done. injection H2 as <-.
      rewrite claim_slot_key in Hkey. by destruct (Hold i e1 Hi H1 Hu1).
    + rewrite list_lookup_insert_ne in H1, H2 by done.
      by apply (Hun i j e1 e2).
  - destruct (Remove_cases d nm)
      as [[-> _]|(p & e & Hp & _ & _ & _ & ->)]; [done |].
    intros i j e1 e2 H1 H2 Hu1 Hu2 Hkey. simpl in H1, H2.
    destruct (decide (i = p)) as [Hi|Hi].
    { subst i. rewrite list_lookup_alter_eq, Hp in H1. injection H1 as <-.
      discriminate. }
    destruct (decide (j = p)) as [Hj|Hj].
    { subst j. rewrite list_lookup_alter_eq, Hp in H2. injection H2 as <-.
      discriminate. }
    rewrite list_lookup_alter_ne in H1, H2 by done.
    by apply (Hun i j e1 e2).
Qed.

Lemma run_unique_keys cs : ∀ d, unique_keys d → unique_keys (run d cs).
Proof.
  induction cs as [|c cs IH]; intros d Hun; [done |].
  apply IH. by apply call_unique_keys.
Qed.

Lemma new_unique_keys size : unique_keys (Directory_new size).
Proof.
  intros i j e e' Hi _ Hu. simpl in Hi.
  by apply lookup_replicate_1 in Hi as [-> _].
Qed.

(** X15: in a directory reached from a new one by calls of [Add] and
    [Remove], no two slots in use hold the same key, so that at most one
    slot in use matches a name. *)
Theorem Directory_unique_names size cs nm i j e e' :
  let d := run (Directory_new size) cs in
  (table d !! i = Some e → table d !! j = Some e' →
   inUse e = true → inUse e' = true → slot_key e = slot_key e' → i = j)
  ∧ (table d !! i = Some e → table d !! j = Some e' →
     name_matches e nm = true → name_matches e' nm = true → i = j).
Proof.
  intros d.
  pose proof (run_unique_keys cs _ (new_unique_keys size)) as Hun.
  fold d in Hun. split.
  - apply Hun.
  - intros Hi Hj [Hu Hk]%name_matches_key [Hu' Hk']%name_matches_key.
    apply (Hun i j e e'); try done. congruence.
Qed.

(** X16: in a directory reached from a new one by calls of [Add] and
    [Remove], a [Remove] that returns true leaves no slot in use with the
    key of the name: [Find] then returns -1 and a second [Remove] returns
    false. *)
Theorem Remove_then_absent size cs nm d' :
  Remove (run (Directory_new size) cs) nm = (true, d') →
  FindIndex d' nm = -1
  ∧ Find d' nm = -1
  ∧ Remove d' nm = (false, d')
  ∧ ∀ i e, table d' !! i = Some e → inUse e = true → slot_key e ≠ key nm.
Proof.
  intros Hrem.
  pose proof (run_unique_keys cs _ (new_unique_keys size)) as Hun.
  set (d := run (Directory_new size) cs) in *.
  destruct (Remove_cases d nm) as [[Hr _]|(p & e & Hp & Hm & _ & _ & Hr)];
    rewrite Hr in Hrem; [discriminate |].
  injection Hrem as <-.
  assert (Hnone : ∀ i e0,
            alter release_slot p (table d) !! i = Some e0 →
            name_matches e0 nm = false).
  { intros i e0 Hi. destruct (decide (i = p)) as [Hne|Hne]; [subst i |].
    - rewrite list_lookup_alter_eq, Hp in Hi. by injection Hi as <-.
    - rewrite list_lookup_alter_ne in Hi by done.
      destruct (name_matches e0 nm) eqn:E; [| done].
      apply name_matches_key in E as [Hu0 Hk0].
      apply name_matches_key in Hm as [Hu Hk].
      destruct Hne. apply (Hun i p e0 e); try done. congruence. }
  assert (Hk : FindIndex (mkDirectory (alter release_slot p (table d))) nm
               = -1) by (by apply FindIndex_absent).
  split; [done |]. split; [by apply Find_absent |].
  split; [unfold Remove; by rewrite Hk |].
  intros i e0 Hi Hu0 Hk0. simpl in Hi.
  assert (Hm0 : name_matches e0 nm = true) by (by apply name_matches_key).
  rewrite (Hnone _ _ Hi) in Hm0. discriminate.
Qed.

Lemma in_use_count_release t p e :
  t !! p = Some e → inUse e = true →
  S (in_use_count (alter release_slot p t)) = in_use_count t.
Proof.
  revert p. induction t as [|e0 t IH]; intros p Hp Hu; [done |].
  destruct p as [|p].
  - simpl in *. injection Hp as ->. by rewrite Hu.
  - change (alter release_slot (S p) (e0 :: t))
      with (e0 :: alter release_slot p t).
    simpl in Hp. pose proof (IH p Hp Hu). cbn [in_use_count].
    destruct (inUse e0); lia.
Qed.

(** X17: a call of [Add] or [Remove] never changes the number of slots;
    a call that returns false changes nothing; an [Add] that returns true
    puts one more slot in use and a [Remove] that returns true one less;
    the slots in use are never more than the table has. *)
Theorem call_slot_count d c :
  let r := fst (call d c) in
  let d' := snd (call d c) in
  length (table d') = length (table d)
  ∧ (r = false → d' = d)
  ∧ (r = true →
     match c with
     | CallAdd _ _ _ =>
         in_use_count (table d') = S (in_use_count (table d))
     | CallRemove _ =>
         S (in_use_count (table d')) = in_use_count (table d)
     end)
  ∧ (in_use_count (table d') ≤ length (table d'))%nat.
Proof.
  simpl. split_and!; [| | | apply in_use_count_le].
  - destruct c as [nm s b|nm]; simpl.
    + destruct (Add_cases d nm s b) as [[-> _]|(p & e & _ & _ & _ & ->)];
        [done | apply length_insert].
    + destruct (Remove_cases d nm)
        as [[-> _]|(p & e & _ & _ & _ & _ & ->)];
        [done | apply length_alter].
  - destruct c as [nm s b|nm]; simpl.
    + destruct (Add_cases d nm s b) as [[-> _]|(p & e & _ & _ & _ & ->)];
        [done | discriminate].
    + destruct (Remove_cases d nm)
        as [[-> _]|(p & e & _ & _ & _ & _ & ->)];
        [done | discriminate].
  - destruct c as [nm s b|nm]; simpl.
    + destruct (Add_cases d nm s b) as [[-> _]|(p & e & Hp & Hu & _ & ->)];
        [discriminate |].
      intros _. simpl. by eapply in_use_count_claim.
    + destruct (Remove_cases d nm)
        as [[-> _]|(p & e & Hp & Hm & _ & _ & ->)];
        [discriminate |].
      intros _. simpl. apply name_matches_key in Hm as [Hu _].
      by eapply in_use_count_release.
Qed.

End Nachos.

(** ** The scenario with 128-byte sectors, 10 direct entries and blocks of
    32 entries *)

Example example_hdr_new : example_hdr = FileHeader_new 10 18.
Proof. reflexivity. Qed.

(** C1, as stated, fails: with 5 free sectors and a file of 11 sectors,
    [Allocate] returns false, and [numBytes] and [numSectors] of the header
    are no longer the -1 they were. *)
Lemma Allocate_failure_changes_header :
  let w := example_world 5 in
  Bitmap.NumClear (freeMap w) < divRoundUp 1408 128
  ∧ ∃ w', Allocate 128 10 32 1408 w = Ok false w'
          ∧ freeMap w' = freeMap w
          ∧ numBytes (hdr w) = -1 ∧ numBytes (hdr w') = 1408
          ∧ numSectors (hdr w) = -1 ∧ numSectors (hdr w') = 11
          ∧ hdr w' ≠ hdr w.
Proof.
  split; [reflexivity |].
  eexists. split; [vm_compute; reflexivity |].
  split_and!; try reflexivity. discriminate.
Qed.


(** C2: with 20 free sectors and a file of 11 sectors the check of
    [Allocate] passes, 43 sectors are needed, and the call stops at a failed
    [ASSERT] with all 20 sectors marked. *)
Theorem Allocate_check_too_weak :
  let w := example_world 20 in
  divRoundUp 1408 128 ≤ Bitmap.NumClear (freeMap w)
  ∧ ∃ w', Allocate 128 10 32 1408 w = Stop AssertFailed w'
          ∧ Bitmap.NumClear (freeMap w) = 20
          ∧ Bitmap.NumClear (freeMap w') = 0.
Proof.
  split; [by vm_compute |].
  eexists. split; [vm_compute; reflexivity |]. by vm_compute.
Qed.

(** C4: a successful [Allocate] of 5 * 128 bytes takes 5 sectors, all
    direct, and writes no indirection block; one of 15 * 128 bytes fills
    the 10 direct entries and one indirect entry, whose block holds 32
    further sectors, 43 sectors in all, of which the offsets of the file
    reach the first 5 entries of the block only. *)
Theorem Allocate_scenario_B w w' :
  (Allocate 128 10 32 (5 * 128) w = Ok true w' →
   numDirectSectors (hdr w') = 5
   ∧ numIndirectSectors (hdr w') = 0
   ∧ ∃ ss,
       length ss = 5%nat
       ∧ take 5 (DirectSectors (hdr w')) = ss
       ∧ IndirectSectors (hdr w') = IndirectSectors (hdr w)
       ∧ (∀ x, disk w' x = disk w x)
       ∧ NoDup ss
       ∧ (∀ z, z ∈ ss → is_clear (freeMap w) z)
       ∧ (∀ z, zlookup (freeMap w') z
               = if decide (z ∈ ss) then Some true
                 else zlookup (freeMap w) z)
       ∧ Bitmap.NumClear (freeMap w') = Bitmap.NumClear (freeMap w) - 5)
  ∧ (Allocate 128 10 32 (15 * 128) w = Ok true w' →
     numBytes (hdr w') = 1920
     ∧ numDirectSectors (hdr w') = 10
     ∧ numIndirectSectors (hdr w') = 1
     ∧ (∀ offset, 128 * 10 ≤ offset < 1920 →
                  0 ≤ Z.rem (Z.quot (offset - 128 * 10) 128) 32 < 5)
     ∧ ∃ ss s blk,
         length ss = 10%nat
         ∧ length blk = 32%nat
         ∧ take 10 (DirectSectors (hdr w')) = ss
         ∧ zlookup (IndirectSectors (hdr w')) 0 = Some s
         ∧ drop 1 (IndirectSectors (hdr w')) = drop 1 (IndirectSectors (hdr w))
         ∧ disk w' s = blk
         ∧ NoDup (ss ++ s :: blk)
         ∧ (∀ z, z ∈ ss ++ s :: blk → is_clear (freeMap w) z)
         ∧ (∀ z, zlookup (freeMap w') z
                 = if decide (z ∈ ss ++ s :: blk) then Some true
                   else zlookup (freeMap w) z)
         ∧ Bitmap.NumClear (freeMap w') = Bitmap.NumClear (freeMap w) - 43).
Proof.
  split.
  - intros Hrun. apply Allocate_true in Hrun as (ss & bl & Hal).
    destruct Hal.
    assert (Hsized : sized 128 10 32 (hdr w) (5 * 128)
                     = mkFileHeader 640 5 5 0 (DirectSectors (hdr w))
                         (IndirectSectors (hdr w))) by reflexivity.
    rewrite Hsized in *. simpl in *.
    destruct bl as [|? ?]; [| done]. simpl in *.
    unfold taken_order in al_fresh0. simpl in al_fresh0.
    rewrite app_nil_r in al_fresh0.
    rewrite al_hdr0. simpl.
    split; [done |]. split; [done |]. exists ss.
    split; [done |].
    split; [by rewrite take_app_length' by done |].
    split; [done |].
    split; [intros x; apply al_disk0, not_elem_of_nil |].
    split; [by eapply fresh_run_NoDup |].
    split; [by eapply fresh_run_clear |].
    split; [by eapply fresh_run_lookup |].
    rewrite (fresh_run_count _ _ _ al_fresh0). lia.
  - intros Hrun. apply Allocate_true in Hrun as (ss & bl & Hal).
    destruct Hal.
    assert (Hsized : sized 128 10 32 (hdr w) (15 * 128)
                     = mkFileHeader 1920 15 10 1 (DirectSectors (hdr w))
                         (IndirectSectors (hdr w))) by reflexivity.
    rewrite Hsized in *. simpl in *.
    destruct bl as [|[s blk] [|? ?]]; [done | | done]. simpl in *.
    unfold taken_order in al_fresh0. simpl in al_fresh0.
    rewrite app_nil_r in al_fresh0.
    apply Forall_cons in al_block_size0 as [Hblk _]. simpl in Hblk.
    rewrite al_hdr0. simpl.
    split; [done |]. split; [done |]. split; [done |].
    split.
    { intros offset Hoff.
      match goal with
      | |- context [Z.quot ?a 128] => assert (Hq : 0 ≤ Z.quot a 128 < 5)
      end.
      { rewrite Z.quot_div_nonneg by lia. split.
        - apply Z.div_pos; lia.
        - apply Z.div_lt_upper_bound; lia. }
      rewrite Z.rem_small; lia. }
    exists ss, s, blk.
    split; [done |]. split; [done |].
    split; [by rewrite take_app_length' by done |].
    split; [done |].
    split; [by rewrite drop_drop |].
    split; [apply (al_blocks0 (s, blk)); left |].
    split; [by eapply fresh_run_NoDup |].
    split; [by eapply fresh_run_clear |].
    split; [by eapply fresh_run_lookup |].
    rewrite (fresh_run_count _ _ _ al_fresh0), length_app. simpl. lia.
Qed.

(** ** The theorems at concrete inputs *)

Lemma Allocate_failure_frame_witness :
  let w := example_world 5 in
  Bitmap.NumClear (freeMap w) < divRoundUp 1408 128
  ∧ ∃ w', Allocate 128 10 32 1408 w = Ok false w'
          ∧ freeMap w' = freeMap w
          ∧ disk w' = disk w
          ∧ clearLog w' = clearLog w
          ∧ numBytes (hdr w') = 1408
          ∧ numSectors (hdr w') = divRoundUp 1408 128
          ∧ numDirectSectors (hdr w') = numDirectSectors (hdr w)
          ∧ numIndirectSectors (hdr w') = numIndirectSectors (hdr w)
          ∧ DirectSectors (hdr w') = DirectSectors (hdr w)
          ∧ IndirectSectors (hdr w') = IndirectSectors (hdr w).
Proof.
  intros w. split; [reflexivity |].
  apply (Allocate_failure_frame 128 10 32 1408 w). reflexivity.
Defined.

Lemma Allocate_Deallocate_restores_witness :
  let w := example_world 64 in
  let w1 := world_of (Allocate 128 10 32 1920 w) in
  Allocate 128 10 32 1920 w = Ok true w1
  ∧ ∃ w2 cs,
      Deallocate 32 w1 = Ok tt w2
      ∧ freeMap w2 = freeMap w
      ∧ Bitmap.NumClear (freeMap w2) = Bitmap.NumClear (freeMap w)
      ∧ (∀ s, is_clear (freeMap w) s → is_marked (freeMap w1) s →
              is_clear (freeMap w2) s)
      ∧ clearLog w2 = clearLog w ++ cs
      ∧ NoDup cs
      ∧ (∀ s, s ∈ cs ↔ is_clear (freeMap w) s ∧ is_marked (freeMap w1) s).
Proof.
  intros w w1.
  assert (Hrun : Allocate 128 10 32 1920 w = Ok true w1)
    by (vm_compute; reflexivity).
  split; [exact Hrun |].
  exact (Allocate_Deallocate_restores 128 10 32 1920 w w1 Hrun).
Defined.

Lemma Allocate_scenario_B_witness :
  let w := example_world 64 in
  let w1 := world_of (Allocate 128 10 32 (5 * 128) w) in
  let w2 := world_of (Allocate 128 10 32 (15 * 128) w) in
  Allocate 128 10 32 (5 * 128) w = Ok true w1
  ∧ Allocate 128 10 32 (15 * 128) w = Ok true w2
  ∧ numDirectSectors (hdr w1) = 5
  ∧ numIndirectSectors (hdr w1) = 0
  ∧ numDirectSectors (hdr w2) = 10
  ∧ numIndirectSectors (hdr w2) = 1.
Proof.
  intros w w1 w2.
  assert (H1 : Allocate 128 10 32 (5 * 128) w = Ok true w1)
    by (vm_compute; reflexivity).
  assert (H2 : Allocate 128 10 32 (15 * 128) w = Ok true w2)
    by (vm_compute; reflexivity).
  split; [exact H1 |]. split; [exact H2 |].
  destruct (proj1 (Allocate_scenario_B w w1) H1) as (Ha & Hb & _).
  destruct (proj2 (Allocate_scenario_B w w2) H2) as (_ & Hc & Hd & _).
  split; [exact Ha |]. split; [exact Hb |]. split; [exact Hc | exact Hd].
Defined.


Lemma FetchFrom_decodes_witness :
  let record := [1500; 12; 99; 99] ++ [2; 3; 4; 5; 6; 7; 8; 9; 10; 11]
                  ++ [12; 45] ++ replicate 16 (-1) in
  let w := mkWorld example_hdr (replicate 64 true)
             (λ s, if decide (s = 7) then record else []) [] in
  Z.of_nat (length (IndirectSectors (hdr w))) = 18
  ∧ ∃ w', FetchFrom 10 18 7 w = Ok tt w'
          ∧ numBytes (hdr w') = 1500
          ∧ numSectors (hdr w') = 12
          ∧ numIndirectSectors (hdr w') = 2
          ∧ numDirectSectors (hdr w') = 10.
Proof.
  intros record w.
  assert (Hlen : Z.of_nat (length (IndirectSectors (hdr w))) = 18)
    by reflexivity.
  split; [exact Hlen |].
  destruct (FetchFrom_decodes 10 18 7 w Hlen) as (w' & n & Hrun & _).
  exists w'. split; [exact Hrun |].
  assert (Hw : w' = world_of (FetchFrom 10 18 7 w))
    by (rewrite Hrun; reflexivity).
  rewrite Hw. vm_compute. repeat split.
Defined.

Lemma Directory_Add_Find_Remove_witness :
  let d := Directory_new 10 10 in
  let adds := [("a", 1, false); ("b", 2, false); ("c", 3, true);
               ("d", 4, false); ("e", 5, false); ("f", 6, false);
               ("g", 7, false); ("h", 8, true); ("i", 9, false);
               ("j", 10, false)]%string in
  FindIndex 9 d "foo.txt" = -1
  ∧ (∃ e, e ∈ table d ∧ inUse e = false)
  ∧ (∃ d1 d2,
       Add 9 d "foo.txt" 17 false = (true, d1)
       ∧ Find 9 d1 "foo.txt" = 17
       ∧ Add 9 d1 "foo.txt" 22 false = (false, d1)
       ∧ Remove 9 d1 "foo.txt" = (true, d2)
       ∧ Find 9 d2 "foo.txt" = -1
       ∧ Remove 9 d2 "foo.txt" = (false, d2))
  ∧ ∃ dn, AddAll 9 d adds = Some dn
          ∧ Add 9 dn "k" 11 false = (false, dn).
Proof.
  intros d adds.
  assert (Hk : FindIndex 9 d "foo.txt" = -1) by reflexivity.
  assert (Hfree : ∃ e, e ∈ table d ∧ inUse e = false).
  { exists (DirectoryEntry_new 10). split; [| reflexivity].
    apply (list_elem_of_lookup_2 _ O). reflexivity. }
  split; [exact Hk |]. split; [exact Hfree |].
  destruct (Directory_Add_Find_Remove 9 d "foo.txt" 17 false 22 false
              Hk Hfree) as [Hseq Hfull].
  split; [exact Hseq |].
  assert (Hadds : ∃ dn, AddAll 9 d adds = Some dn).
  { vm_compute. eexists. reflexivity. }
  destruct Hadds as [dn Hdn]. exists dn. split; [exact Hdn |].
  apply (Hfull adds dn); [reflexivity | exact Hdn].
Defined.

Lemma Remove_frame_witness :
  let d := snd (Add 9 (Directory_new 10 10) "foo.txt" 17 false) in
  let w := example_world 5 in
  (∃ e, e ∈ table d ∧ name_matches 9 e "foo.txt" = true)
  ∧ ∃ d', Remove_in 9 "foo.txt" (d, w) = (true, (d', w))
          ∧ length (table d') = length (table d)
          ∧ ∀ q, q ≠ O → table d' !! q = table d !! q.
Proof.
  intros d w.
  assert (Hin : ∃ e, e ∈ table d ∧ name_matches 9 e "foo.txt" = true).
  { exists (claim_slot 9 (DirectoryEntry_new 10) "foo.txt" 17 false).
    split; [| reflexivity].
    apply (list_elem_of_lookup_2 _ O). reflexivity. }
  split; [exact Hin |].
  destruct (Remove_frame 9 d "foo.txt" w Hin)
    as (p & e & d' & Hk & _ & Hrem & _ & _ & _ & _ & _ & _ & Hlen & Hrest).
  assert (Hp : p = O).
  { apply Nat2Z.inj. rewrite <- Hk. reflexivity. }
  rewrite Hp in Hrest.
  exists d'. split; [exact Hrem |]. split; [exact Hlen | exact Hrest].
Defined.

Lemma free_slot_invariant_witness :
  let cs := [CallAdd "a" 5 true; CallAdd "b" 6 false; CallRemove "a"]%string in
  let e := mkDirectoryEntry false true 5 (replicate 10 zero) in
  table (run 9 (Directory_new 10 3) cs) !! O = Some e
  ∧ inUse e = false
  ∧ all_zero (name e)
  ∧ (sector e, isDirectory e) = last_held 9 O (Directory_new 10 3) cs (-1, false)
  ∧ last_held 9 O (Directory_new 10 3) cs (-1, false) = (5, true).
Proof.
  intros cs e.
  assert (Hslot : table (run 9 (Directory_new 10 3) cs) !! O = Some e)
    by reflexivity.
  assert (Hfree : inUse e = false) by reflexivity.
  split; [exact Hslot |]. split; [exact Hfree |].
  destruct (free_slot_invariant 9 10 3 cs O e Hslot Hfree) as [Hz Hl].
  split; [exact Hz |]. split; [exact Hl | reflexivity].
Defined.

Lemma ByteToSector_in_allocation_witness :
  let w := example_world 64 in
  let w' := world_of (Allocate 128 10 32 1920 w) in
  0 < 128
  ∧ 0 < 32
  ∧ Allocate 128 10 32 1920 w = Ok true w'
  ∧ 0 ≤ 1797 < numBytes (hdr w')
  ∧ ∃ sec, ByteToSector 128 32 1797 w' = Ok sec w'
           ∧ is_clear (freeMap w) sec ∧ is_marked (freeMap w') sec.
Proof.
  intros w w'.
  assert (H1 : 0 < 128) by reflexivity.
  assert (H2 : 0 < 32) by reflexivity.
  assert (Hrun : Allocate 128 10 32 1920 w = Ok true w')
    by (vm_compute; reflexivity).
  assert (Hoff : 0 ≤ 1797 < numBytes (hdr w'))
    by (split; [discriminate | reflexivity]).
  split; [exact H1 |]. split; [exact H2 |]. split; [exact Hrun |].
  split; [exact Hoff |].
  exact (proj2 (proj2 (ByteToSector_in_allocation 128 10 32 H1 H2 1920 w w'
                         1797 Hrun Hoff))).
Defined.

(** ** The further theorems at concrete inputs *)

Lemma Allocate_sector_count_witness :
  let w := example_world 64 in
  let w' := world_of (Allocate 128 10 32 1920 w) in
  Allocate 128 10 32 1920 w = Ok true w'
  ∧ numDirectSectors (hdr w') = 10
  ∧ numIndirectSectors (hdr w') = 1
  ∧ Bitmap.NumClear (freeMap w') = 64 - 43.
Proof.
  intros w w'.
  assert (Hrun : Allocate 128 10 32 1920 w = Ok true w')
    by (vm_compute; reflexivity).
  split; [exact Hrun |].
  destruct (Allocate_sector_count 128 10 32 1920 w w' Hrun)
    as (_ & _ & Hd & Hi & _ & Hc).
  split; [exact Hd |]. split; [exact Hi |]. rewrite Hc. reflexivity.
Defined.

Lemma Allocate_writes_free_sectors_witness :
  let w := example_world 64 in
  let w' := world_of (Allocate 128 10 32 1920 w) in
  Allocate 128 10 32 1920 w = Ok true w'
  ∧ numDirectSectors (hdr w') ≤ Z.of_nat (length (DirectSectors (hdr w')))
  ∧ numIndirectSectors (hdr w')
    ≤ Z.of_nat (length (IndirectSectors (hdr w')))
  ∧ (∀ s, is_marked (freeMap w) s → is_marked (freeMap w') s)
  ∧ (∀ x, disk w' x ≠ disk w x →
          is_clear (freeMap w) x ∧ is_marked (freeMap w') x
          ∧ x ∈ IndirectSectors (hdr w'))
  ∧ clearLog w' = clearLog w.
Proof.
  intros w w'.
  assert (Hrun : Allocate 128 10 32 1920 w = Ok true w')
    by (vm_compute; reflexivity).
  assert (Hd : numDirectSectors (hdr w')
               ≤ Z.of_nat (length (DirectSectors (hdr w'))))
    by (vm_compute; discriminate).
  assert (Hi : numIndirectSectors (hdr w')
               ≤ Z.of_nat (length (IndirectSectors (hdr w'))))
    by (vm_compute; discriminate).
  split; [exact Hrun |]. split; [exact Hd |]. split; [exact Hi |].
  exact (Allocate_writes_free_sectors 128 10 32 1920 w w' Hrun Hd Hi).
Defined.

Lemma Allocate_empty_file_witness :
  let w := example_world 5 in
  0 < 128
  ∧ 0 ≤ 10
  ∧ -3 ≤ 0
  ∧ divRoundUp (-3) 128 ≤ 0
  ∧ Allocate 128 10 32 (-3) w
    = Ok true
        (mkWorld
           (mkFileHeader (-3) (divRoundUp (-3) 128) (divRoundUp (-3) 128) 0
              (DirectSectors (hdr w)) (IndirectSectors (hdr w)))
           (freeMap w) (disk w) (clearLog w)).
Proof.
  intros w.
  assert (H1 : 0 < 128) by reflexivity.
  assert (H2 : 0 ≤ 10) by discriminate.
  assert (H3 : -3 ≤ 0) by discriminate.
  split; [exact H1 |]. split; [exact H2 |]. split; [exact H3 |].
  exact (Allocate_empty_file 128 10 32 H1 (-3) w H2 H3).
Defined.

Lemma Allocate_outcomes_witness :
  (∃ w', Allocate 128 10 32 1408 (example_world 5) = Ok false w')
  ∧ (∃ w', Allocate 128 10 32 1408 (example_world 64) = Ok true w')
  ∧ (∃ w', Allocate 128 10 32 1408 (example_world 20)
           = Stop AssertFailed w').
Proof.
  split; [| split].
  - apply (Allocate_outcomes 128 10 32 1408 (example_world 5));
      vm_compute; (discriminate || reflexivity).
  - apply (Allocate_outcomes 128 10 32 1408 (example_world 64));
      vm_compute; (discriminate || reflexivity).
  - apply (Allocate_outcomes 128 10 32 1408 (example_world 20));
      vm_compute; (discriminate || reflexivity).
Defined.


Lemma Deallocate_twice_witness :
  let w := example_world 64 in
  let w1 := world_of (Allocate 128 10 32 1920 w) in
  0 < 128
  ∧ 0 < 10
  ∧ 0 < 1920
  ∧ Allocate 128 10 32 1920 w = Ok true w1
  ∧ ∃ w2, Deallocate 32 w1 = Ok tt w2
          ∧ Deallocate 32 w2 = Stop AssertFailed w2.
Proof.
  intros w w1.
  assert (H1 : 0 < 128) by reflexivity.
  assert (H2 : 0 < 10) by reflexivity.
  assert (H3 : 0 < 1920) by reflexivity.
  assert (Hrun : Allocate 128 10 32 1920 w = Ok true w1)
    by (vm_compute; reflexivity).
  split; [exact H1 |]. split; [exact H2 |]. split; [exact H3 |].
  split; [exact Hrun |].
  exact (Deallocate_twice 128 10 32 H1 1920 w w1 H2 H3 Hrun).
Defined.

Lemma WriteBack_FetchFrom_canonical_witness :
  let w := world_of (Allocate 128 10 32 1920 (example_world 64)) in
  Z.of_nat (length (IndirectSectors (hdr w))) = 18
  ∧ length (DirectSectors example_hdr) = length (DirectSectors (hdr w))
  ∧ length (IndirectSectors example_hdr) = length (IndirectSectors (hdr w))
  ∧ ∃ w1 h1,
      WriteBack 1 w = Ok tt w1
      ∧ FetchFrom 10 18 1
          (mkWorld example_hdr (freeMap w1) (disk w1) (clearLog w1))
        = Ok tt (mkWorld h1 (freeMap w1) (disk w1) (clearLog w1))
      ∧ (h1 = hdr w ↔ canonical 10 (hdr w)).
Proof.
  intros w.
  assert (H1 : Z.of_nat (length (IndirectSectors (hdr w))) = 18)
    by reflexivity.
  assert (H2 : length (DirectSectors example_hdr)
               = length (DirectSectors (hdr w))) by reflexivity.
  assert (H3 : length (IndirectSectors example_hdr)
               = length (IndirectSectors (hdr w))) by reflexivity.
  split; [exact H1 |]. split; [exact H2 |]. split; [exact H3 |].
  destruct (WriteBack_FetchFrom_canonical 10 18 1 w example_hdr H1 H2 H3)
    as (w1 & h1 & Hw & _ & _ & _ & Hf & _ & _ & _ & _ & Hc).
  exists w1, h1. split; [exact Hw |]. split; [exact Hf | exact Hc].
Defined.

Lemma Allocate_WriteBack_FetchFrom_witness :
  let w := example_world 64 in
  let w1 := world_of (Allocate 128 10 32 1920 w) in
  0 < 32
  ∧ Z.of_nat (length (IndirectSectors (hdr w))) = 18
  ∧ IndirectSectors (hdr w) = replicate (Z.to_nat 18) (-1)
  ∧ length (DirectSectors example_hdr) = length (DirectSectors (hdr w))
  ∧ length (IndirectSectors example_hdr) = length (IndirectSectors (hdr w))
  ∧ Allocate 128 10 32 1920 w = Ok true w1
  ∧ numIndirectSectors (hdr w1) ≤ 18
  ∧ ∃ w2, WriteBack 1 w1 = Ok tt w2
          ∧ hdr w2 = hdr w1
          ∧ FetchFrom 10 18 1
              (mkWorld example_hdr (freeMap w2) (disk w2) (clearLog w2))
            = Ok tt w2.
Proof.
  intros w w1.
  assert (H0 : 0 < 32) by reflexivity.
  assert (H1 : Z.of_nat (length (IndirectSectors (hdr w))) = 18)
    by reflexivity.
  assert (H2 : IndirectSectors (hdr w) = replicate (Z.to_nat 18) (-1))
    by reflexivity.
  assert (H3 : length (DirectSectors example_hdr)
               = length (DirectSectors (hdr w))) by reflexivity.
  assert (H4 : length (IndirectSectors example_hdr)
               = length (IndirectSectors (hdr w))) by reflexivity.
  assert (Hrun : Allocate 128 10 32 1920 w = Ok true w1)
    by (vm_compute; reflexivity).
  split; [exact H0 |]. split; [exact H1 |]. split; [exact H2 |].
  assert (Hfit : numIndirectSectors (hdr w1) ≤ 18)
    by (vm_compute; discriminate).
  split; [exact H3 |]. split; [exact H4 |]. split; [exact Hrun |].
  split; [exact Hfit |].
  exact (Allocate_WriteBack_FetchFrom 128 10 18 32 H0 1920 1 w w1
           example_hdr H1 H2 H3 H4 Hrun Hfit).
Defined.

Lemma ByteToSector_injective_witness :
  let w := example_world 64 in
  let w' := world_of (Allocate 128 10 32 1920 w) in
  0 < 128
  ∧ 0 < 32
  ∧ 0 ≤ 10
  ∧ Allocate 128 10 32 1920 w = Ok true w'
  ∧ 0 ≤ 100 < numBytes (hdr w')
  ∧ 0 ≤ 1797 < numBytes (hdr w')
  ∧ ∃ s1 s2,
      ByteToSector 128 32 100 w' = Ok s1 w'
      ∧ ByteToSector 128 32 1797 w' = Ok s2 w'
      ∧ (s1 = s2 ↔ Z.quot 100 128 = Z.quot 1797 128)
      ∧ s1 ∉ take (Z.to_nat (numIndirectSectors (hdr w')))
               (IndirectSectors (hdr w')).
Proof.
  intros w w'.
  assert (H1 : 0 < 128) by reflexivity.
  assert (H2 : 0 < 32) by reflexivity.
  assert (H3 : 0 ≤ 10) by discriminate.
  assert (Hrun : Allocate 128 10 32 1920 w = Ok true w')
    by (vm_compute; reflexivity).
  assert (Ho1 : 0 ≤ 100 < numBytes (hdr w'))
    by (split; [discriminate | reflexivity]).
  assert (Ho2 : 0 ≤ 1797 < numBytes (hdr w'))
    by (split; [discriminate | reflexivity]).
  split; [exact H1 |]. split; [exact H2 |]. split; [exact H3 |].
  split; [exact Hrun |]. split; [exact Ho1 |]. split; [exact Ho2 |].
  exact (ByteToSector_injective 128 10 32 H1 H2 1920 w w' 100 1797 H3 Hrun
           Ho1 Ho2).
Defined.

Lemma Directory_new_empty_witness :
  let d := Directory_new 10 10 in
  0 ≤ 10
  ∧ 0 < 10
  ∧ tableSize d = 10
  ∧ FindIndex 9 d "foo.txt" = -1
  ∧ Remove 9 d "foo.txt" = (false, d)
  ∧ ∃ d', Add 9 d "foo.txt" 17 false = (true, d')
          ∧ table d' !! O
            = Some (claim_slot 9 (DirectoryEntry_new 10) "foo.txt" 17 false)
          ∧ Find 9 d' "foo.txt" = 17.
Proof.
  intros d.
  assert (H0 : 0 ≤ 10) by discriminate.
  assert (H1 : 0 < 10) by reflexivity.
  split; [exact H0 |]. split; [exact H1 |].
  destruct (Directory_new_empty 9 10 10 "foo.txt" 17 false H0)
    as (Hs & Hk & _ & Hr & _ & Ha).
  split; [exact Hs |]. split; [exact Hk |].
  split; [exact Hr | exact (Ha H1)].
Defined.

Lemma Add_outcome_witness :
  let d := Directory_new 10 10 in
  let d' := snd (Add 9 d "foo.txt" 17 false) in
  Add 9 d "foo.txt" 17 false = (true, d')
  ∧ FindIndex 9 d "foo.txt" = -1
  ∧ length (table d') = length (table d).
Proof.
  intros d d'.
  assert (Hadd : Add 9 d "foo.txt" 17 false = (true, d')) by reflexivity.
  split; [exact Hadd |].
  destruct (Add_outcome 9 d "foo.txt" 17 false true d' Hadd)
    as [(Hr & _)|(_ & Hk & p & e & e' & _ & _ & _ & _ & _ & _ & _ & _ & Hl & _)].
  - discriminate Hr.
  - split; [exact Hk | exact Hl].
Defined.

Lemma names_compared_by_prefix_witness :
  let d := snd (Add 9 (Directory_new 10 10) "abcdefghiXX" 17 false) in
  take (Z.to_nat 9) (list_ascii_of_string "abcdefghiXX")
  = take (Z.to_nat 9) (list_ascii_of_string "abcdefghiYYY")
  ∧ FindIndex 9 d "abcdefghiXX" = FindIndex 9 d "abcdefghiYYY"
  ∧ Find 9 d "abcdefghiXX" = Find 9 d "abcdefghiYYY"
  ∧ Remove 9 d "abcdefghiXX" = Remove 9 d "abcdefghiYYY"
  ∧ (FindIndex 9 d "abcdefghiXX" ≠ -1 →
     Add 9 d "abcdefghiYYY" 22 true = (false, d)).
Proof.
  intros d.
  assert (Ht : take (Z.to_nat 9) (list_ascii_of_string "abcdefghiXX")
               = take (Z.to_nat 9) (list_ascii_of_string "abcdefghiYYY"))
    by reflexivity.
  split; [exact Ht |].
  exact (names_compared_by_prefix 9 d "abcdefghiXX" "abcdefghiYYY" 22 true
           Ht).
Defined.

Lemma Find_other_name_witness :
  let d := snd (Add 9 (Directory_new 10 10) "b" 6 false) in
  key 9 "a" ≠ key 9 "b"
  ∧ Find 9 (snd (Add 9 d "a" 5 true)) "b" = Find 9 d "b"
  ∧ Find 9 (snd (Remove 9 d "a")) "b" = Find 9 d "b".
Proof.
  intros d.
  assert (Hne : key 9 "a" ≠ key 9 "b").
  { intros H. vm_compute in H. discriminate H. }
  split; [exact Hne |].
  exact (Find_other_name 9 d "a" "b" 5 true Hne).
Defined.

Lemma Directory_unique_names_witness :
  let cs := [CallAdd "a" 5 true; CallAdd "b" 6 false]%string in
  let d := run 9 (Directory_new 10 3) cs in
  let e := claim_slot 9 (DirectoryEntry_new 10) "a" 5 true in
  table d !! O = Some e
  ∧ name_matches 9 e "a" = true
  ∧ O = O.
Proof.
  intros cs d e.
  assert (H0 : table d !! O = Some e) by reflexivity.
  assert (Hm : name_matches 9 e "a" = true) by reflexivity.
  split; [exact H0 |]. split; [exact Hm |].
  exact (proj2 (Directory_unique_names 9 10 3 cs "a" O O e e) H0 H0 Hm Hm).
Defined.

Lemma Remove_then_absent_witness :
  let cs := [CallAdd "a" 5 true; CallAdd "b" 6 false]%string in
  let d := run 9 (Directory_new 10 3) cs in
  let d' := snd (Remove 9 d "a") in
  Remove 9 d "a" = (true, d')
  ∧ FindIndex 9 d' "a" = -1
  ∧ Find 9 d' "a" = -1
  ∧ Remove 9 d' "a" = (false, d')
  ∧ ∀ i e, table d' !! i = Some e → inUse e = true →
           slot_key 9 e ≠ key 9 "a".
Proof.
  intros cs d d'.
  assert (Hrem : Remove 9 d "a" = (true, d')) by reflexivity.
  split; [exact Hrem |].
  exact (Remove_then_absent 9 10 3 cs "a" d' Hrem).
Defined.

Lemma call_slot_count_witness :
  let d := Directory_new 10 3 in
  let c := CallAdd "a" 5 true in
  fst (call 9 d c) = true
  ∧ length (table (snd (call 9 d c))) = length (table d)
  ∧ in_use_count (table (snd (call 9 d c))) = S (in_use_count (table d)).
Proof.
  intros d c.
  assert (Hr : fst (call 9 d c) = true) by reflexivity.
  split; [exact Hr |].
  destruct (call_slot_count 9 d c) as (Hl & _ & Hc & _).
  split; [exact Hl | exact (Hc Hr)].
Defined.
